(** * resumata: keyword extraction, skill gating and resume re-ranking

    A shallow embedding of [src/resumata.py] (class [ResumeOptimizer]) and
    the properties its specification states about it.

    Conventions of the embedding.
    - A Python [str] is a [string]; a character is a code point in
      U+0000..U+00FF (Latin-1), for which [str.lower], [\w] and [\s] are
      written out below exactly as CPython classifies them.
    - A [Dict[str, int]] is an association list in insertion order (the
      order is observable through the stable sorts applied to its items).
    - The skills configuration is a [gmap] from level name to skill names,
      read with [dict.get(level, [])].
    - A loaded YAML document is a tree of [value]s; a Python exception is
      the result [None] of an [option]-valued function. *)

From Stdlib Require Import ZArith Ascii String Permutation Sorted.
From stdpp Require Import gmap strings list sorting.

Local Open Scope Z_scope.
Local Set Warnings "-register-all,-clear-no-such-hyp".

(** * The program *)

(** ** Characters *)

Module Char.

Definition code (c : ascii) : N := N_of_ascii c.

Definition in_range (lo hi : N) (c : ascii) : bool :=
  ((lo <=? code c) && (code c <=? hi))%N.

(** [str.isalnum] on one character. *)
Definition is_alnum (c : ascii) : bool :=
  in_range 48 57 c || in_range 65 90 c || in_range 97 122 c
  || in_range 170 170 c || in_range 178 179 c || in_range 181 181 c
  || in_range 185 186 c || in_range 188 190 c || in_range 192 214 c
  || in_range 216 246 c || in_range 248 255 c.

(** The regex class [\w]: alphanumeric or underscore. *)
Definition is_word (c : ascii) : bool :=
  is_alnum c || in_range 95 95 c.

(** The regex class [\s]. *)
Definition is_space (c : ascii) : bool :=
  in_range 9 13 c || in_range 28 32 c || in_range 133 133 c
  || in_range 160 160 c.

Definition is_dot (c : ascii) : bool := in_range 46 46 c.
Definition is_hyphen (c : ascii) : bool := in_range 45 45 c.

(** The class [[\w.-]]. *)
Definition is_token (c : ascii) : bool :=
  is_word c || is_dot c || is_hyphen c.

(** The class [[\w\s.-]], whose complement [re.sub] blanks out. *)
Definition is_kept (c : ascii) : bool :=
  is_word c || is_space c || is_dot c || is_hyphen c.

Definition is_upper (c : ascii) : bool :=
  in_range 65 90 c || in_range 192 214 c || in_range 216 222 c.

(** [str.lower] on one character. *)
Definition lower (c : ascii) : ascii :=
  if is_upper c then ascii_of_N (code c + 32) else c.

Definition space : ascii := " "%char.

End Char.

Global Arguments Char.is_alnum : simpl never.
Global Arguments Char.is_word : simpl never.
Global Arguments Char.is_space : simpl never.
Global Arguments Char.is_dot : simpl never.
Global Arguments Char.is_hyphen : simpl never.
Global Arguments Char.is_token : simpl never.
Global Arguments Char.is_kept : simpl never.
Global Arguments Char.lower : simpl never.

(** ** Strings *)

(** [s.lower()] *)
Fixpoint lower (s : string) : string :=
  match s with
  | EmptyString => EmptyString
  | String c s' => String (Char.lower c) (lower s')
  end.

(** [s.startswith(k)] *)
Fixpoint starts_with (k s : string) : bool :=
  match k, s with
  | EmptyString, _ => true
  | String a k', String b s' => if ascii_dec a b then starts_with k' s' else false
  | String _ _, EmptyString => false
  end.

(** [k in s] for two strings: [k] occurs in [s] as a substring. *)
Fixpoint contains (k s : string) : bool :=
  starts_with k s ||
  match s with
  | EmptyString => false
  | String _ s' => contains k s'
  end.

(** [c in s] for a character [c]. *)
Fixpoint has_char (c : ascii) (s : string) : bool :=
  match s with
  | EmptyString => false
  | String a s' => if ascii_dec c a then true else has_char c s'
  end.

(** [s[:n]] *)
Fixpoint str_take (n : nat) (s : string) : string :=
  match n, s with
  | S n', String c s' => String c (str_take n' s')
  | _, _ => EmptyString
  end.

(** [s[n:]] *)
Fixpoint str_drop (n : nat) (s : string) : string :=
  match n, s with
  | S n', String _ s' => str_drop n' s'
  | _, _ => s
  end.

(** The last character of [s], if any. *)
Fixpoint str_last (s : string) : option ascii :=
  match s with
  | EmptyString => None
  | String c EmptyString => Some c
  | String _ s' => str_last s'
  end.

Definition str_head (s : string) : option ascii :=
  match s with
  | EmptyString => None
  | String c _ => Some c
  end.

(** [sep.join(l)] *)
Fixpoint join (sep : string) (l : list string) : string :=
  match l with
  | [] => ""
  | [x] => x
  | x :: l' => x +:+ sep +:+ join sep l'
  end.

(** ** The regular expressions of [extract_keywords] *)

Module Re.

Definition word_opt (o : option ascii) : bool :=
  match o with
  | Some c => Char.is_word c
  | None => false
  end.

(** [\b] at a position: exactly one of the character before it and the
    character after it is a word character (the ends of the text count
    as non-word). *)
Definition boundary (before after : option ascii) : bool :=
  xorb (word_opt before) (word_opt after).

(** [\b] after the first [n] characters of [s], where [prev] is the
    character that precedes [s] in the text. *)
Definition boundary_at (prev : option ascii) (s : string) (n : nat) : bool :=
  boundary
    (match n with
     | O => prev
     | S _ => str_last (str_take n s)
     end)
    (str_head (str_drop n s)).

(** [re.sub(r'[^\w\s.-]', ' ', s)] *)
Fixpoint sub_unkept (s : string) : string :=
  match s with
  | EmptyString => EmptyString
  | String c s' =>
      String (if Char.is_kept c then c else Char.space) (sub_unkept s')
  end.

(** The number of characters the greedy [[\w.-]+] consumes at the start
    of [s]. *)
Fixpoint token_span (s : string) : nat :=
  match s with
  | EmptyString => O
  | String c s' => if Char.is_token c then S (token_span s') else O
  end.

(** Backtracking of the greedy repetition: the longest length in
    [1..n] after which [\b] holds. *)
Fixpoint backtrack (prev : option ascii) (s : string) (n : nat) : option nat :=
  match n with
  | O => None
  | S n' =>
      if boundary_at prev s n then Some n else backtrack prev s n'
  end.

(** One match attempt of [\b[\w.-]+\b] at the start of [s]: the length
    of the match, if there is one. *)
Definition match_token (prev : option ascii) (s : string) : option nat :=
  if boundary_at prev s 0 then backtrack prev s (token_span s) else None.

(** One match attempt of [\b<literal>\b] at the start of [s], the
    pattern [rf'\b{re.escape(keyword)}\b']. *)
Definition match_phrase (keyword : string) (prev : option ascii) (s : string)
  : option nat :=
  if boundary_at prev s 0 && starts_with keyword s
     && boundary_at prev s (String.length keyword)
  then Some (String.length keyword) else None.

Section Findall.

(** [matcher prev s] is the length of the match of the pattern at the
    start of [s], where [prev] is the character before [s]. *)
Variable matcher : option ascii -> string -> option nat.

(** [re.findall]: scan left to right; after a match the search
    resumes where the match ended ([skip] counts the characters of the
    current match still to step over). The patterns used here never
    match the empty string. *)
Fixpoint scan (prev : option ascii) (skip : nat) (s : string) : list string :=
  match s with
  | EmptyString => []
  | String c s' =>
      match skip with
      | S k => scan (Some c) k s'
      | O =>
          match matcher prev s with
          | Some (S n) => str_take (S n) s :: scan (Some c) n s'
          | _ => scan (Some c) O s'
          end
      end
  end.

Definition findall (s : string) : list string := scan None O s.

End Findall.

End Re.

(** ** Dictionaries in insertion order *)

Section Dict.

Context {V : Type}.

(** [d.get(k)] *)
Fixpoint dict_get (k : string) (d : list (string * V)) : option V :=
  match d with
  | [] => None
  | (k', v) :: d' => if decide (k = k') then Some v else dict_get k d'
  end.

(** [d[k] = v]: overwrite in place, or append a new key. *)
Fixpoint dict_set (k : string) (v : V) (d : list (string * V)) : list (string * V) :=
  match d with
  | [] => [(k, v)]
  | (k', v') :: d' =>
      if decide (k = k') then (k, v) :: d' else (k', v') :: dict_set k v d'
  end.

(** [k in d] *)
Definition dict_has (k : string) (d : list (string * V)) : bool :=
  match dict_get k d with
  | Some _ => true
  | None => false
  end.

End Dict.

(** ** Keyword extraction *)

(** [self.tech_keywords], listed in source order. It is a Python set: the
    order in which it is iterated is not fixed by the program, so
    [extract_keywords_over] takes the iteration order as an argument. *)
Definition tech_keywords : list string :=
  [ "python"; "java"; "javascript"; "typescript"; "go"; "rust"; "c++"; "c#";
    "kotlin"; "scala"; "ruby"; "php";
    "react"; "vue"; "angular"; "node.js"; "nodejs"; "express"; "django";
    "flask"; "spring"; "springboot";
    "aws"; "azure"; "gcp"; "google cloud"; "kubernetes"; "k8s"; "docker";
    "containers"; "terraform"; "ansible";
    "mysql"; "postgresql"; "mongodb"; "redis"; "elasticsearch"; "dynamodb";
    "cassandra"; "sqlite";
    "jenkins"; "github actions"; "gitlab ci"; "ci/cd"; "cicd"; "devops";
    "monitoring"; "prometheus"; "grafana";
    "bazel"; "gradle"; "maven"; "webpack"; "git"; "jira"; "confluence";
    "agile"; "scrum"; "microservices"; "rest api"; "graphql"; "tdd";
    "unit testing";
    "machine learning"; "ai"; "tensorflow"; "pytorch"; "data science"; "nlp";
    "computer vision" ].

(** The first two statements of [extract_keywords]: lower-case, then blank
    out every character outside [[\w\s.-]]. *)
Definition normalize (job_text : string) : string :=
  Re.sub_unkept (lower job_text).

(** [words.count(keyword)] *)
Definition list_count (keyword : string) (words : list string) : nat :=
  length (filter (λ w, w = keyword) words).

(** The count the loop body computes for one vocabulary term, on the
    normalized text and its token list. *)
Definition keyword_count (job_text : string) (words : list string)
    (keyword : string) : nat :=
  if has_char Char.space keyword
  then length (Re.findall (Re.match_phrase keyword) job_text)
  else list_count keyword words.

(** The loop over the vocabulary, on the normalized text. *)
Definition count_keywords (vocab : list string) (job_text : string)
    : list (string * Z) :=
  let words := Re.findall Re.match_token job_text in
  foldl
    (λ keyword_counts keyword,
       let count := keyword_count job_text words keyword in
       if (0 <? count)%nat
       then dict_set keyword (Z.of_nat count) keyword_counts
       else keyword_counts)
    [] vocab.

Definition extract_keywords_over (vocab : list string) (job_text : string)
    : list (string * Z) :=
  count_keywords vocab (normalize job_text).

Definition extract_keywords (job_text : string) : list (string * Z) :=
  extract_keywords_over tech_keywords job_text.

(** ** Python values *)

(** A value loaded from YAML. Scalars other than strings are never
    inspected by the code beyond their truth value and their type. *)
Inductive value : Type :=
| VNone
| VBool (b : bool)
| VInt (n : Z)
| VStr (s : string)
| VList (l : list value)
| VDict (d : list (string * value)).

(** The truth value [bool(v)]. *)
Definition truthy (v : value) : bool :=
  match v with
  | VNone => false
  | VBool b => b
  | VInt n => negb (n =? 0)
  | VStr s => negb (bool_decide (s = ""))
  | VList l => negb (bool_decide (length l = O))
  | VDict d => negb (bool_decide (length d = O))
  end.

(** The one-character strings a loop over a string visits. *)
Fixpoint chars (s : string) : list value :=
  match s with
  | EmptyString => []
  | String c s' => VStr (String c "") :: chars s'
  end.

(** [for x in v]: the elements a [for] loop visits, or [None] when [v] is
    not iterable. *)
Definition py_iter (v : value) : option (list value) :=
  match v with
  | VList l => Some l
  | VDict d => Some (VStr <$> d.*1)
  | VStr s => Some (chars s)
  | _ => None
  end.

(** [v == k] for a string [k]. *)
Definition is_str (k : string) (v : value) : bool :=
  match v with
  | VStr s => bool_decide (s = k)
  | _ => false
  end.

(** [k in v] for a string [k]. *)
Definition py_contains (k : string) (v : value) : option bool :=
  match v with
  | VDict d => Some (dict_has k d)
  | VList l => Some (existsb (is_str k) l)
  | VStr s => Some (contains k s)
  | _ => None
  end.

(** [v[k]] for a string [k]. *)
Definition py_getitem (v : value) (k : string) : option value :=
  match v with
  | VDict d => dict_get k d
  | _ => None
  end.

(** [v[k] = x] for a string [k]. *)
Definition py_setitem (v : value) (k : string) (x : value) : option value :=
  match v with
  | VDict d => Some (VDict (dict_set k x d))
  | _ => None
  end.

(** ** [sorted(l, key=..., reverse=True)] *)

Section SortedDesc.

Context {A : Type} (key : A → Z).

(** Insert [x] in front of a descending list of elements that all came
    after [x]: it passes exactly the elements with a larger key. *)
Fixpoint insert_desc (x : A) (l : list A) : list A :=
  match l with
  | [] => [x]
  | y :: l' => if key x <? key y then y :: insert_desc x l' else x :: y :: l'
  end.

(** The stable sort by descending key. Python guarantees stability also
    with [reverse=True], which fixes the result uniquely. *)
Definition sorted_desc (l : list A) : list A := foldr insert_desc [] l.

End SortedDesc.

(** ** Skill registry and gate *)

(** [self.validated_skills.get(level, [])] *)
Definition skills_at (validated_skills : gmap string (list string))
    (level : string) : list string :=
  default [] (validated_skills !! level).

(** [keyword_lower in [skill.lower() for skill in validated_skills.get(level, [])]] *)
Definition registered (validated_skills : gmap string (list string))
    (level keyword_lower : string) : bool :=
  bool_decide (keyword_lower ∈ lower <$> skills_at validated_skills level).

(** The local [skill_hierarchy] of [validate_keyword]. *)
Definition skill_hierarchy : list string :=
  ["learning"; "familiar"; "proficient"; "expert"].

(** [l.index(x)]; [None] is the [ValueError] of a missing element. *)
Fixpoint list_index (x : string) (l : list string) : option nat :=
  match l with
  | [] => None
  | y :: l' => if decide (x = y) then Some O else S <$> list_index x l'
  end.

Definition validate_keyword (validated_skills : gmap string (list string))
    (keyword skill_level : string) : option bool :=
  let keyword_lower := lower keyword in
  if registered validated_skills "never_add" keyword_lower then Some false
  else
    min_level_index ← list_index skill_level skill_hierarchy;
    Some (existsb (λ level, registered validated_skills level keyword_lower)
            (drop min_level_index skill_hierarchy)).

(** The loop [for keyword, count in keywords.items(): if
    validate_keyword(keyword, level): acc[keyword] = count], shared by
    [filter_safe_keywords] and the two dict comprehensions of
    [optimize_resume]. *)
Fixpoint gate_loop (validated_skills : gmap string (list string))
    (level : string) (keywords acc : list (string * Z))
    : option (list (string * Z)) :=
  match keywords with
  | [] => Some acc
  | (keyword, count) :: rest =>
      ok ← validate_keyword validated_skills keyword level;
      gate_loop validated_skills level rest
        (if ok : bool then dict_set keyword count acc else acc)
  end.

(** The returned [safe_keywords]; the rejected keywords are only printed. *)
Definition filter_safe_keywords (validated_skills : gmap string (list string))
    (keywords : list (string * Z)) : option (list (string * Z)) :=
  gate_loop validated_skills "familiar" keywords [].

(** The loop of [get_skill_level] over the levels still to check. *)
Fixpoint first_level (validated_skills : gmap string (list string))
    (keyword_lower : string) (levels : list string) : string :=
  match levels with
  | [] => "unknown"
  | level :: rest =>
      if registered validated_skills level keyword_lower then level
      else first_level validated_skills keyword_lower rest
  end.

Definition get_skill_level (validated_skills : gmap string (list string))
    (keyword : string) : string :=
  first_level validated_skills (lower keyword)
    ["expert"; "proficient"; "familiar"; "learning"].

(** ** Resume transformation *)

(** [details = tech_item.get('details', [])], wrapped in a list when it
    is a string, as the elements the loop over it visits. *)
Definition details_of (tech_item : value) : option (list value) :=
  match tech_item with
  | VDict d =>
      match default (VList []) (dict_get "details" d) with
      | VStr s => Some [VStr s]
      | details => py_iter details
      end
  | _ => None
  end.

(** [detail.lower()] *)
Definition lower_of (detail : value) : option string :=
  match detail with
  | VStr s => Some (lower s)
  | _ => None
  end.

(** The inner loop of [keyword_score] over [matched_keywords.items()]. *)
Definition score_detail (matched_keywords : list (string * Z))
    (detail_lower : string) (score : Z) : Z :=
  foldl (λ score kc, if contains kc.1 detail_lower then score + kc.2 * 10 else score)
    score matched_keywords.

(** The outer loop of [keyword_score] over the details. *)
Fixpoint score_details (matched_keywords : list (string * Z))
    (details : list value) (score : Z) : option Z :=
  match details with
  | [] => Some score
  | detail :: rest =>
      detail_lower ← lower_of detail;
      score_details matched_keywords rest
        (score_detail matched_keywords detail_lower score)
  end.

Definition keyword_score (matched_keywords : list (string * Z))
    (tech_item : value) : option Z :=
  details ← details_of tech_item;
  score_details matched_keywords details 0.

Definition reorder_technologies (tech_section : value)
    (matched_keywords : list (string * Z)) : option value :=
  if truthy tech_section then
    match tech_section with
    | VList items =>
        keyed ← mapM (λ item, (λ score, (score, item)) <$>
                                keyword_score matched_keywords item) items;
        Some (VList (sorted_desc fst keyed).*2)
    | _ => None
    end
  else Some tech_section.

(** [summary.endswith('.')] *)
Definition ends_with_dot (s : string) : bool :=
  match str_last s with
  | Some c => Char.is_dot c
  | None => false
  end.

Definition enhance_summary (summary : string) (top_keywords : list string)
    : string :=
  let summary_lower := lower summary in
  let keywords_to_add :=
    List.filter (λ keyword, negb (contains keyword summary_lower))
      (take 3 top_keywords) in
  match keywords_to_add with
  | [] => summary
  | _ =>
      let keyword_phrase := join ", " keywords_to_add in
      if ends_with_dot summary
      then str_take (String.length summary - 1) summary
           +:+ ", including expertise in " +:+ keyword_phrase +:+ "."
      else summary +:+ " Experienced with " +:+ keyword_phrase +:+ "."
  end.

(** The loop filling [existing_keywords]. *)
Fixpoint existing_loop (sections : list value) (existing : gset string)
    : option (gset string) :=
  match sections with
  | [] => Some existing
  | section :: rest =>
      details ← details_of section;
      lowered ← mapM lower_of details;
      existing_loop rest (existing ∪ list_to_set lowered)
  end.

Definition job_relevant_section (new_keywords : list string) : value :=
  VDict [("label", VStr "Job-Relevant Technologies");
         ("details", VList (VStr <$> take 6 new_keywords))].

Definition add_relevant_skills (tech_section : value)
    (matched_keywords : list (string * Z)) : option value :=
  match matched_keywords with
  | [] => Some tech_section
  | _ =>
      let top_keywords := take 8 (sorted_desc snd matched_keywords) in
      sections ← py_iter tech_section;
      existing_keywords ← existing_loop sections ∅;
      let new_keywords :=
        List.filter (λ kw, bool_decide (kw ∉ existing_keywords))
          top_keywords.*1 in
      match new_keywords with
      | [] => Some tech_section
      | _ =>
          match tech_section with
          | VList items => Some (VList (job_relevant_section new_keywords :: items))
          | _ => None
          end
      end
  end.

(** The [summary] step of [optimize_resume]. *)
Definition optimize_summary (validated_skills : gmap string (list string))
    (safe_keywords : list (string * Z)) (optimized : list (string * value))
    : option (list (string * value)) :=
  match dict_get "cv" optimized with
  | None => Some optimized
  | Some cv =>
      has_summary ← py_contains "summary" cv;
      if has_summary : bool then
        expert_keywords ← gate_loop validated_skills "proficient" safe_keywords [];
        let top_kw_list := (sorted_desc snd expert_keywords).*1 in
        old ← py_getitem cv "summary";
        match old with
        | VStr summary =>
            cv' ← py_setitem cv "summary"
                    (VStr (enhance_summary summary top_kw_list));
            Some (dict_set "cv" cv' optimized)
        | _ => None
        end
      else Some optimized
  end.

(** The [technologies] step of [optimize_resume]. *)
Definition optimize_technologies (validated_skills : gmap string (list string))
    (safe_keywords : list (string * Z)) (optimized : list (string * value))
    : option (list (string * value)) :=
  match dict_get "cv" optimized with
  | None => Some optimized
  | Some cv =>
      has_sections ← py_contains "sections" cv;
      if has_sections : bool then
        sections ← py_getitem cv "sections";
        has_tech ← py_contains "technologies" sections;
        if has_tech : bool then
          tech_section ← py_getitem sections "technologies";
          tech_section ← reorder_technologies tech_section safe_keywords;
          relevant_keywords ← gate_loop validated_skills "familiar" safe_keywords [];
          tech_section ← add_relevant_skills tech_section relevant_keywords;
          sections' ← py_setitem sections "technologies" tech_section;
          cv' ← py_setitem cv "sections" sections';
          Some (dict_set "cv" cv' optimized)
        else Some optimized
      else Some optimized
  end.

(** [optimize_resume]. The shallow copy shares the nested [cv] dictionary
    with the argument; the function's result is the value of [optimized]
    when it returns. The progress report it prints is not modelled. *)
Definition optimize_resume (validated_skills : gmap string (list string))
    (resume_data : list (string * value)) (job_keywords : list (string * Z))
    : option (list (string * value)) :=
  let optimized := resume_data in
  match job_keywords with
  | [] => Some optimized
  | _ =>
      safe_keywords ← filter_safe_keywords validated_skills job_keywords;
      match safe_keywords with
      | [] => Some optimized
      | _ =>
          optimized ← optimize_summary validated_skills safe_keywords optimized;
          optimize_technologies validated_skills safe_keywords optimized
      end
  end.

(** * Definitions used to state the properties *)

(** Blank out every character outside the class [keep]. *)
Fixpoint blank_outside (keep : ascii → bool) (s : string) : string :=
  match s with
  | EmptyString => EmptyString
  | String c s' =>
      String (if keep c then c else Char.space) (blank_outside keep s')
  end.

(** The normalization as the specification words it: lower-case, then
    replace every character that is not alphanumeric, whitespace, dot or
    hyphen by a space. *)
Definition spec_normalize (text : string) : string :=
  blank_outside
    (λ c, Char.is_alnum c || Char.is_space c || Char.is_dot c || Char.is_hyphen c)
    (lower text).

(** The character [_], the one word character that is not alphanumeric. *)
Definition is_underscore (c : ascii) : bool := Char.in_range 95 95 c.

(** Every character of [s] is in the class [P]. *)
Fixpoint all_chars (P : ascii → bool) (s : string) : bool :=
  match s with
  | EmptyString => true
  | String c s' => P c && all_chars P s'
  end.

(** The sum of a list of integers. *)
Definition sum_list (l : list Z) : Z := foldr Z.add 0 l.

(** The string a value is, if it is one. *)
Definition str_of (v : value) : option string :=
  match v with
  | VStr s => Some s
  | _ => None
  end.

(** The detail strings of a technology item of the documented shape: a
    dictionary whose [details], when present, is a string (one detail)
    or a list of strings. *)
Definition item_details (tech_item : value) : option (list string) :=
  match tech_item with
  | VDict d =>
      match dict_get "details" d with
      | None => Some []
      | Some (VStr s) => Some [s]
      | Some (VList l) => mapM str_of l
      | Some _ => None
      end
  | _ => None
  end.

(** [keyword] occurs in [detail] as a substring, ignoring case. *)
Definition occurs_in (keyword detail : string) : bool :=
  contains (lower keyword) (lower detail).

(** The score as the specification words it. *)
Definition spec_score (matched_keywords : list (string * Z))
    (details : list string) : Z :=
  sum_list
    ((λ detail,
        sum_list ((λ kc, kc.2 * 10) <$>
                  List.filter (λ kc, occurs_in kc.1 detail) matched_keywords))
     <$> details).

(** The score as the code accumulates it: a keyword counts for a detail
    when the keyword, as it is, occurs in the lower-cased detail. *)
Definition score_of (matched_keywords : list (string * Z))
    (details : list string) : Z :=
  sum_list
    ((λ detail,
        sum_list ((λ kc, kc.2 * 10) <$>
                  List.filter (λ kc, contains kc.1 (lower detail))
                    matched_keywords))
     <$> details).

(** The score of a technology item: that of its detail strings. *)
Definition item_score (matched_keywords : list (string * Z))
    (tech_item : value) : Z :=
  score_of matched_keywords (default [] (item_details tech_item)).

(** The keys of a keyword map are lower-case, as the vocabulary is. *)
Definition lowercase_keys (keywords : list (string * Z)) : Prop :=
  Forall (λ kc, lower kc.1 = kc.1) keywords.

(** A section list all of whose items have the documented shape. *)
Definition well_formed_items (items : list value) : Prop :=
  Forall (λ tech_item, is_Some (item_details tech_item)) items.

(** Every detail string of a section list, in order. *)
Definition section_details (items : list value) : list string :=
  concat ((λ tech_item, default [] (item_details tech_item)) <$> items).

(** [v[k1][k2]...] *)
Fixpoint get_path (path : list string) (v : value) : option value :=
  match path with
  | [] => Some v
  | k :: rest => v' ← py_getitem v k; get_path rest v'
  end.

(** [v[k1][k2]... = x] on an existing path. *)
Fixpoint set_path (path : list string) (x : value) (v : value) : option value :=
  match path with
  | [] => Some x
  | k :: rest =>
      old ← py_getitem v k;
      new ← set_path rest x old;
      py_setitem v k new
  end.

(** The keys, in order, of the dictionary at a path. *)
Definition keys_at (path : list string) (v : value) : option (list string) :=
  d ← get_path path v;
  match d with
  | VDict d => Some d.*1
  | _ => None
  end.

(** The two places [optimize_resume] assigns to. *)
Definition touched_paths : list (list string) :=
  [["cv"; "summary"]; ["cv"; "sections"; "technologies"]].

(** A path that neither leads to, nor lies below, an assigned place. *)
Definition untouched (path : list string) : Prop :=
  Forall (λ q, ¬ path `prefix_of` q ∧ ¬ q `prefix_of` path) touched_paths.

(** The documented shape of a resume: [cv], when present, is a
    dictionary; its [summary], when present, is a string; its [sections],
    when present, is a dictionary whose [technologies], when present, is a
    list of technology items. *)
Definition well_formed_resume (resume : list (string * value)) : Prop :=
  match dict_get "cv" resume with
  | None => True
  | Some (VDict cv) =>
      match dict_get "summary" cv with
      | None | Some (VStr _) => True
      | Some _ => False
      end
      ∧ match dict_get "sections" cv with
        | None => True
        | Some (VDict sections) =>
            match dict_get "technologies" sections with
            | None => True
            | Some (VList items) => well_formed_items items
            | Some _ => False
            end
        | Some _ => False
        end
  | Some _ => False
  end.

(** One step of [optimize_resume]: nothing, or an assignment at the
    existing path [q]. *)
Definition step_at (q : list string) (r r' : list (string * value)) : Prop :=
  r' = r ∨ ∃ x, set_path q x (VDict r) = Some (VDict r').

(** What a step preserves. *)
Definition frame (r r' : list (string * value)) : Prop :=
  (∀ p, untouched p → get_path p (VDict r') = get_path p (VDict r))
  ∧ (∀ p, p ∈ [[]; ["cv"]; ["cv"; "sections"]] →
          keys_at p (VDict r') = keys_at p (VDict r))
  ∧ (∀ q, q ∈ touched_paths →
          get_path q (VDict r) = None → get_path q (VDict r') = None).

(** ** Example data *)

(** A technology item [{label: ..., details: [...]}]. *)
Definition item (label : string) (details : list string) : value :=
  VDict [("label", VStr label); ("details", VList (VStr <$> details))].

(** The registry of Scenario B. *)
Definition scenario_b : gmap string (list string) :=
  {[ "never_add" := ["react"]; "expert" := ["react"] ]}.

Definition expert_rust : gmap string (list string) :=
  {[ "expert" := ["Rust"]; "never_add" := ["cobol"] ]}.

Definition two_levels : gmap string (list string) :=
  {[ "proficient" := ["Python"]; "learning" := ["python"; "go"] ]}.

Definition no_skills : gmap string (list string) := ∅.

Definition small_resume : list (string * value) :=
  [("cv", VDict [("name", VStr "Ada"); ("summary", VStr "Engineer.")])].

Definition scenario_items : list value :=
  [ item "A" ["uses java"];
    VDict [("label", VStr "Shell"); ("details", VStr "Bash, zsh")];
    item "Languages" ["Python"; "Go"];
    item "B" ["uses python"; "Java and Python"];
    VDict [("label", VStr "Empty")] ].

Definition python_skills : gmap string (list string) :=
  {[ "proficient" := ["Python"]; "familiar" := ["Docker"] ]}.

Definition full_resume : list (string * value) :=
  [ ("name", VStr "Ada");
    ("cv", VDict
       [ ("summary", VStr "Backend engineer.");
         ("location", VStr "Paris");
         ("sections", VDict
            [ ("education", VList [VStr "MSc"]);
              ("technologies", VList
                 [ item "Tools" ["Git"]; item "Languages" ["uses Python"] ]) ]) ]);
    ("design", VDict [("theme", VStr "classic")]) ].

Definition optimized_full_resume : list (string * value) :=
  [ ("name", VStr "Ada");
    ("cv", VDict
       [ ("summary", VStr "Backend engineer, including expertise in python.");
         ("location", VStr "Paris");
         ("sections", VDict
            [ ("education", VList [VStr "MSc"]);
              ("technologies", VList
                 [ job_relevant_section ["python"; "docker"];
                   item "Languages" ["uses Python"];
                   item "Tools" ["Git"] ]) ]) ]);
    ("design", VDict [("theme", VStr "classic")]) ].

(** * The rest of the program *)

(** The value [load_validated_skills] returns when there is no
    configuration file, or when reading it fails: five empty lists. *)
Definition default_validated_skills : gmap string (list string) :=
  {[ "expert" := []; "proficient" := []; "familiar" := [];
     "learning" := []; "never_add" := [] ]}.

(** How a run of [main] ends once its two files are read: it returns
    without saving, an exception escapes, or it hands a resume to
    [save_resume]. *)
Inductive outcome : Type :=
| Returned
| Raised
| Saved (optimized_resume : list (string * value)).

(** [main] from the point where the registry is loaded: [resume_data] is
    what [load_resume] returned, [job_text] what [load_job_posting]
    returned, and [order] the order in which the vocabulary set is
    iterated. The computation of the output path is not modelled. *)
Definition main_body (validated_skills : gmap string (list string))
    (order : list string) (resume_data : list (string * value))
    (job_text : string) : outcome :=
  if bool_decide (length resume_data = O) then Returned
  else if bool_decide (job_text = "") then Returned
  else
    let job_keywords := extract_keywords_over order job_text in
    match optimize_resume validated_skills resume_data job_keywords with
    | Some optimized_resume => Saved optimized_resume
    | None => Raised
    end.

(** ** Definitions used to state the further properties *)

(** The count [extract_keywords] computes for one term of the vocabulary. *)
Definition term_count (job_text : string) (keyword : string) : nat :=
  keyword_count (normalize job_text)
    (Re.findall Re.match_token (normalize job_text)) keyword.

(** A keyword validates at a minimum level. *)
Definition validated (validated_skills : gmap string (list string))
    (level keyword : string) : bool :=
  bool_decide (validate_keyword validated_skills keyword level = Some true).

(** The first and the last character of a string are word characters. *)
Definition word_ended (s : string) : bool :=
  Re.word_opt (str_head s) && Re.word_opt (str_last s).

(** The characters a greedy [[\w.-]+] would consume at the start of [s]
    hold no word character. *)
Fixpoint no_word_span (s : string) : bool :=
  match s with
  | EmptyString => true
  | String c s' =>
      if Char.is_token c then negb (Char.is_word c) && no_word_span s'
      else true
  end.

(** The longest length in [0..n] after which [\b] holds. *)
Definition longest_boundary (prev : option ascii) (s : string) (n : nat)
    : option nat :=
  match Re.backtrack prev s n with
  | Some m => Some m
  | None => if Re.boundary_at prev s 0 then Some O else None
  end.

(** The state the scan keeps: outside a match, a word character just
    passed is followed by no word character the next match could take;
    inside a match, the match ends within the text on a word character
    and the same holds after it. *)
Definition scan_state (prev : option ascii) (skip : nat) (s : string) : Prop :=
  match skip with
  | O => Re.word_opt prev = true → no_word_span s = true
  | S _ =>
      (skip ≤ String.length s)%nat
      ∧ Re.word_opt (str_last (str_take skip s)) = true
      ∧ no_word_span (str_drop skip s) = true
  end.

Definition mixed_skills : gmap string (list string) :=
  {[ "expert" := ["Rust"]; "familiar" := ["Go"; "rust"];
     "never_add" := ["PHP"] ]}.

(** One round of the loop of [extract_keywords], for a given way of
    counting a term. *)
Definition count_step (count : string → nat)
    (keyword_counts : list (string * Z)) (keyword : string)
    : list (string * Z) :=
  if (0 <? count keyword)%nat
  then dict_set keyword (Z.of_nat (count keyword)) keyword_counts
  else keyword_counts.

(** * Properties *)

(** ** Evaluating the model *)

Example extract_scenario_a :
  extract_keywords "We need a Python developer. Python experience required."
  = [("python", 2)].
Proof. vm_compute. reflexivity. Qed.

Example extract_tokens :
  Re.findall Re.match_token "node.js. -go- a.-b c++ x_y ci cd"
  = ["node.js"; "go"; "a.-b"; "c"; "x_y"; "ci"; "cd"].
Proof. vm_compute. reflexivity. Qed.

Example extract_phrases :
  extract_keywords "Google Cloud, google cloudy; REST API/rest api. Node.js"
  = [("node.js", 1); ("google cloud", 1); ("rest api", 2)].
Proof. vm_compute. reflexivity. Qed.

Example reorder_scenario_d :
  reorder_technologies
    (VList [item "A" ["uses java"]; item "B" ["uses python"]])
    [("python", 5); ("java", 1)]
  = Some (VList [item "B" ["uses python"]; item "A" ["uses java"]]).
Proof. vm_compute. reflexivity. Qed.

Example enhance_scenario_e :
  enhance_summary "Skilled engineer." ["rust"; "go"]
  = "Skilled engineer, including expertise in rust, go.".
Proof. vm_compute. reflexivity. Qed.

Example validate_scenario_b :
  validate_keyword {[ "never_add" := ["react"]; "expert" := ["react"] ]}
    "react" "learning" = Some false.
Proof. vm_compute. reflexivity. Qed.

(** ** Characters and normalization *)

Ltac each_char c := destruct c as [[] [] [] [] [] [] [] []].

Lemma char_lower_idem c : Char.lower (Char.lower c) = Char.lower c.
Proof. each_char c; vm_compute; reflexivity. Qed.

Lemma char_normalize_idem c :
  let d := if Char.is_kept (Char.lower c) then Char.lower c else Char.space in
  (if Char.is_kept (Char.lower d) then Char.lower d else Char.space) = d.
Proof. each_char c; vm_compute; reflexivity. Qed.

Lemma char_kept_classes c :
  Char.is_kept c
  = Char.is_alnum c || is_underscore c || Char.is_space c
    || Char.is_dot c || Char.is_hyphen c.
Proof. each_char c; vm_compute; reflexivity. Qed.

Lemma is_dot_char c : Char.is_dot c = true → c = "."%char.
Proof. each_char c; vm_compute; congruence. Qed.

Lemma lower_idem s : lower (lower s) = lower s.
Proof.
  induction s as [|c s IH]; [done|].
  cbn [lower]. by rewrite char_lower_idem, IH.
Qed.

Lemma normalize_idem text : normalize (normalize text) = normalize text.
Proof.
  unfold normalize. induction text as [|c text IH]; [done|].
  cbn [lower Re.sub_unkept]. f_equal; [apply char_normalize_idem | exact IH].
Qed.

Lemma sub_unkept_blank s :
  Re.sub_unkept s
  = blank_outside
      (λ c, Char.is_alnum c || is_underscore c || Char.is_space c
            || Char.is_dot c || Char.is_hyphen c) s.
Proof.
  induction s as [|c s IH]; [done|].
  cbn [Re.sub_unkept blank_outside]. by rewrite IH, char_kept_classes.
Qed.

(** ** Strings: prefixes, suffixes and substrings *)

Lemma str_app_nil (s : string) : "" +:+ s = s.
Proof. reflexivity. Qed.

Lemma str_app_cons c (a b : string) : String c a +:+ b = String c (a +:+ b).
Proof. reflexivity. Qed.

Lemma str_app_length (a b : string) :
  String.length (a +:+ b) = (String.length a + String.length b)%nat.
Proof.
  induction a as [|c a IH]; [done|].
  rewrite str_app_cons. cbn [String.length]. by rewrite IH.
Qed.

Lemma str_take_app (a b : string) : str_take (String.length a) (a +:+ b) = a.
Proof.
  induction a as [|c a IH]; [by destruct b|].
  rewrite str_app_cons. cbn [String.length str_take]. by rewrite IH.
Qed.

Lemma str_last_snoc (a : string) c : str_last (a +:+ String c "") = Some c.
Proof.
  induction a as [|d a IH]; [done|].
  rewrite str_app_cons. cbn [str_last]. rewrite IH.
  destruct a; done.
Qed.

Lemma str_last_split s c :
  str_last s = Some c →
  s = str_take (String.length s - 1) s +:+ String c "".
Proof.
  induction s as [|d s IH]; [done|].
  destruct s as [|e s].
  - cbn. by intros [= ->].
  - intros H. specialize (IH H).
    replace (String.length (String d (String e s)) - 1)%nat
      with (S (String.length (String e s) - 1))
      by (cbn [String.length]; lia).
    cbn [str_take]. rewrite str_app_cons. by rewrite <-IH.
Qed.

(** [summary.endswith('.')] holds exactly when the summary is some text
    followed by a dot. *)
Lemma ends_with_dot_spec s :
  ends_with_dot s = true ↔ ∃ body, s = body +:+ ".".
Proof.
  unfold ends_with_dot. split.
  - destruct (str_last s) as [c|] eqn:Hl; [|done].
    intros ->%is_dot_char. eexists. by apply str_last_split.
  - intros [body ->]. by rewrite str_last_snoc.
Qed.

Lemma starts_with_spec k s :
  starts_with k s = true ↔ ∃ rest, s = k +:+ rest.
Proof.
  revert s. induction k as [|a k IH]; intros s.
  - split; [intros _; by exists s|done].
  - destruct s as [|b s]; cbn [starts_with].
    + split; [done|]. intros [rest H]. by rewrite str_app_cons in H.
    + destruct (ascii_dec a b) as [->|Hab].
      * rewrite IH. split; intros [rest H]; exists rest.
        -- by rewrite str_app_cons, H.
        -- rewrite str_app_cons in H. by injection H.
      * split; [done|]. intros [rest H]. rewrite str_app_cons in H.
        by injection H.
Qed.

(** The Python test [k in s] on strings: [k] is a contiguous part of [s]. *)
Lemma contains_spec k s :
  contains k s = true ↔ ∃ before after, s = before +:+ k +:+ after.
Proof.
  induction s as [|c s IH]; cbn [contains].
  - rewrite orb_false_r, starts_with_spec. split.
    + intros [rest H]. by exists "", rest.
    + intros [[|? ?] [after H]]; [by exists after|done].
  - rewrite orb_true_iff, starts_with_spec, IH. split.
    + intros [[rest H]|(before & after & H)].
      * by exists "", rest.
      * exists (String c before), after. by rewrite str_app_cons, H.
    + intros ([|d before] & after & H).
      * left. by exists after.
      * right. rewrite str_app_cons in H. injection H as _ H.
        by exists before, after.
Qed.

(** ** Dictionaries *)

Lemma dict_get_set_ne {V} (k k' : string) (v : V) d :
  k ≠ k' → dict_get k (dict_set k' v d) = dict_get k d.
Proof.
  intros Hne. induction d as [|[k0 v0] d IH]; simpl.
  - by rewrite decide_False.
  - destruct (decide (k' = k0)) as [->|Hk0]; simpl.
    + by rewrite !decide_False.
    + destruct (decide (k = k0)); [done|exact IH].
Qed.

Lemma dict_get_set_eq {V} (k : string) (v : V) d :
  dict_get k (dict_set k v d) = Some v.
Proof.
  induction d as [|[k0 v0] d IH]; simpl.
  - by rewrite decide_True.
  - destruct (decide (k = k0)) as [->|Hk0]; simpl.
    + by rewrite decide_True.
    + by rewrite decide_False.
Qed.

Lemma dict_set_keys {V} (k : string) (v : V) d :
  is_Some (dict_get k d) → (dict_set k v d).*1 = d.*1.
Proof.
  induction d as [|[k0 v0] d IH]; simpl.
  - by intros [? [=]].
  - destruct (decide (k = k0)) as [->|Hk0]; simpl; [done|].
    intros H. f_equal. by apply IH.
Qed.

Lemma dict_set_lowercase k c acc :
  lower k = k → lowercase_keys acc → lowercase_keys (dict_set k c acc).
Proof.
  intros Hk. induction 1 as [|[k' c'] acc Hk' Hacc IH]; cbn [dict_set].
  { by repeat constructor. }
  destruct (decide (k = k')); constructor; done.
Qed.

(** ** Tokens *)

Lemma take_span_token n s :
  (n ≤ Re.token_span s)%nat → all_chars Char.is_token (str_take n s) = true.
Proof.
  revert s. induction n as [|n IH]; intros [|c s] Hn; simpl in *; try done.
  destruct (Char.is_token c) eqn:Hc; [|lia].
  simpl. apply IH. lia.
Qed.

Lemma backtrack_le prev s n m :
  Re.backtrack prev s n = Some m → (m ≤ n)%nat.
Proof.
  induction n as [|n IH]; simpl; [done|].
  destruct (Re.boundary_at prev s (S n)); [intros [= <-]; lia|].
  intros H%IH. lia.
Qed.

Lemma match_token_le prev s m :
  Re.match_token prev s = Some m → (m ≤ Re.token_span s)%nat.
Proof.
  unfold Re.match_token. destruct (Re.boundary_at prev s 0); [|done].
  apply backtrack_le.
Qed.

Lemma scan_tokens prev skip s :
  Forall (λ w, all_chars Char.is_token w = true)
    (Re.scan Re.match_token prev skip s).
Proof.
  revert prev skip. induction s as [|c s IH]; intros prev skip; cbn [Re.scan].
  { constructor. }
  destruct skip as [|k]; [|apply IH].
  destruct (Re.match_token prev (String c s)) as [[|n]|] eqn:Hm; try apply IH.
  constructor; [|apply IH].
  apply take_span_token. by apply match_token_le in Hm.
Qed.

Lemma list_count_absent keyword words :
  keyword ∉ words → list_count keyword words = O.
Proof.
  unfold list_count. induction words as [|w words IH]; [done|].
  intros Hn. rewrite filter_cons. case_decide as Hw.
  - subst. exfalso. apply Hn. left.
  - apply IH. intros Hin. apply Hn. by right.
Qed.

(** A term with a character outside [[\w.-]] is never a token. *)
Lemma non_token_count keyword text :
  all_chars Char.is_token keyword = false →
  list_count keyword (Re.findall Re.match_token text) = O.
Proof.
  intros Hk. apply list_count_absent. intros Hin.
  pose proof (scan_tokens None O text) as Hall.
  rewrite Forall_forall in Hall. apply Hall in Hin. congruence.
Qed.

(** A term whose count is zero is absent from the result, whatever the
    iteration order of the vocabulary. *)
Lemma count_keywords_absent vocab text k :
  keyword_count text (Re.findall Re.match_token text) k = O →
  dict_get k (count_keywords vocab text) = None.
Proof.
  intros Hk. unfold count_keywords.
  generalize (Re.findall Re.match_token text) Hk. intros words Hw.
  assert (Hacc : dict_get k (@nil (string * Z)) = None) by done.
  revert Hacc. generalize (@nil (string * Z)).
  induction vocab as [|kw vocab IH]; intros acc Hacc; simpl; [done|].
  apply IH.
  destruct (0 <? keyword_count text words kw)%nat eqn:Hpos; [|done].
  destruct (decide (k = kw)) as [->|Hne].
  - rewrite Hw in Hpos. done.
  - by rewrite dict_get_set_ne.
Qed.

Lemma keyword_count_non_token keyword text :
  has_char Char.space keyword = false →
  all_chars Char.is_token keyword = false →
  keyword_count text (Re.findall Re.match_token text) keyword = O.
Proof.
  intros Hsp Htok. unfold keyword_count. rewrite Hsp.
  by apply non_token_count.
Qed.

Lemma keyword_count_empty k : keyword_count "" [] k = O.
Proof. unfold keyword_count. by destruct (has_char Char.space k). Qed.

Lemma count_keywords_empty vocab : count_keywords vocab "" = [].
Proof.
  unfold count_keywords. cbn [Re.findall Re.scan].
  induction vocab as [|k vocab IH]; [done|].
  cbn [foldl]. rewrite keyword_count_empty. exact IH.
Qed.

(** ** The stable descending sort *)

Section SortedDescFacts.

Context {A : Type} (key : A → Z).

Lemma insert_desc_perm x l : insert_desc key x l ≡ₚ x :: l.
Proof.
  induction l as [|y l IH]; cbn [insert_desc]; [done|].
  destruct (key x <? key y); [|done].
  rewrite IH. apply Permutation_swap.
Qed.

Lemma sorted_desc_perm l : sorted_desc key l ≡ₚ l.
Proof.
  induction l as [|x l IH]; [done|].
  cbn [sorted_desc foldr]. fold (sorted_desc key l).
  by rewrite insert_desc_perm, IH.
Qed.

Lemma insert_desc_sorted x l :
  StronglySorted (λ a b, key b ≤ key a) l →
  StronglySorted (λ a b, key b ≤ key a) (insert_desc key x l).
Proof.
  induction 1 as [|y l Hl IH Hy]; cbn [insert_desc].
  { repeat constructor. }
  destruct (key x <? key y) eqn:Hxy.
  - apply Z.ltb_lt in Hxy. constructor; [exact IH|].
    rewrite insert_desc_perm. constructor; [lia|exact Hy].
  - apply Z.ltb_ge in Hxy. constructor; [by constructor|].
    constructor; [done|].
    eapply Forall_impl; [exact Hy|]. intros z Hz. cbn in Hz. lia.
Qed.

Lemma sorted_desc_sorted l :
  StronglySorted (λ a b, key b ≤ key a) (sorted_desc key l).
Proof.
  induction l as [|x l IH]; [constructor|].
  cbn [sorted_desc foldr]. by apply insert_desc_sorted.
Qed.

(** Stability: the elements of any one key keep their input order. *)
Lemma insert_desc_filter z x l :
  filter (λ a, key a = z) (insert_desc key x l)
  = filter (λ a, key a = z) (x :: l).
Proof.
  induction l as [|y l IH]; cbn [insert_desc]; [done|].
  destruct (key x <? key y) eqn:Hxy; [|done].
  apply Z.ltb_lt in Hxy.
  rewrite (filter_cons _ y), IH, !(filter_cons _ x), (filter_cons _ y).
  repeat case_decide; try done; lia.
Qed.

Lemma sorted_desc_stable z l :
  filter (λ a, key a = z) (sorted_desc key l) = filter (λ a, key a = z) l.
Proof.
  induction l as [|x l IH]; [done|].
  cbn [sorted_desc foldr]. fold (sorted_desc key l).
  by rewrite insert_desc_filter, !(filter_cons _ x), IH.
Qed.

(** Sorting the scored pairs and dropping the scores is sorting by
    score. *)
Lemma insert_desc_keyed x l :
  insert_desc fst (key x, x) ((λ a, (key a, a)) <$> l)
  = (λ a, (key a, a)) <$> insert_desc key x l.
Proof.
  induction l as [|y l IH]; [done|].
  cbn [fmap list_fmap insert_desc fst].
  destruct (key x <? key y); [|done].
  cbn [fmap list_fmap]. f_equal. exact IH.
Qed.

Lemma sorted_desc_keyed l :
  (sorted_desc fst ((λ a, (key a, a)) <$> l)).*2 = sorted_desc key l.
Proof.
  assert (H : sorted_desc fst ((λ a, (key a, a)) <$> l)
              = (λ a, (key a, a)) <$> sorted_desc key l).
  { induction l as [|x l IH]; [done|].
    rewrite fmap_cons. unfold sorted_desc in *. cbn [foldr].
    rewrite IH. apply insert_desc_keyed. }
  rewrite H, <-list_fmap_compose.
  rewrite <-(list_fmap_id (sorted_desc key l)) at 2.
  by apply list_fmap_ext.
Qed.

End SortedDescFacts.

Lemma sorted_desc_head_max {A} (key : A → Z) x l y :
  StronglySorted (λ a b, key b ≤ key a) (x :: l) → y ∈ x :: l → key y ≤ key x.
Proof.
  intros Hs Hy. apply StronglySorted_inv in Hs as [_ Hall].
  apply elem_of_cons in Hy as [->|Hy]; [lia|].
  rewrite Forall_forall in Hall. by apply Hall.
Qed.

Lemma stable_sorted_unique {A} (key : A → Z) l1 l2 :
  StronglySorted (λ a b, key b ≤ key a) l1 →
  StronglySorted (λ a b, key b ≤ key a) l2 →
  (∀ z, filter (λ a, key a = z) l1 = filter (λ a, key a = z) l2) →
  l1 = l2.
Proof.
  intros H1. revert l2.
  induction l1 as [|x l1 IH]; intros l2 H2 Hf.
  { destruct l2 as [|y l2]; [done|].
    specialize (Hf (key y)). rewrite filter_nil, filter_cons_True in Hf; done. }
  destruct l2 as [|y l2].
  { specialize (Hf (key x)). rewrite filter_nil, filter_cons_True in Hf; done. }
  assert (Hx : x ∈ y :: l2).
  { apply (list_elem_of_filter (λ a, key a = key x)). rewrite <-Hf.
    rewrite filter_cons_True by done. left. }
  assert (Hy : y ∈ x :: l1).
  { apply (list_elem_of_filter (λ a, key a = key y)). rewrite Hf.
    rewrite filter_cons_True by done. left. }
  assert (Hxy : key x = key y).
  { pose proof (sorted_desc_head_max key _ _ _ H2 Hx).
    pose proof (sorted_desc_head_max key _ _ _ H1 Hy). lia. }
  assert (Hhead := Hf (key x)).
  rewrite !filter_cons_True in Hhead by done.
  injection Hhead as <- Htail. f_equal.
  apply IH.
  - by apply StronglySorted_inv in H1 as [? _].
  - by apply StronglySorted_inv in H2 as [? _].
  - intros z. destruct (decide (key x = z)) as [<-|Hne]; [done|].
    specialize (Hf z). by rewrite !filter_cons_False in Hf.
Qed.

(** ** The skill hierarchy *)

Lemma hierarchy_index :
  list_index "learning" skill_hierarchy = Some 0%nat
  ∧ list_index "familiar" skill_hierarchy = Some 1%nat
  ∧ list_index "proficient" skill_hierarchy = Some 2%nat
  ∧ list_index "expert" skill_hierarchy = Some 3%nat.
Proof. repeat split; vm_compute; reflexivity. Qed.

Lemma list_index_hierarchy level i :
  list_index level skill_hierarchy = Some i →
  (level = "learning" ∧ i = 0%nat) ∨ (level = "familiar" ∧ i = 1%nat)
  ∨ (level = "proficient" ∧ i = 2%nat) ∨ (level = "expert" ∧ i = 3%nat).
Proof.
  unfold skill_hierarchy. cbn [list_index].
  repeat (case_decide; [intros [= <-]; subst; tauto|]).
  cbn. repeat (case_decide; [cbn; intros [= <-]; subst; tauto|]). done.
Qed.

Lemma validate_keyword_allowed vs keyword :
  registered vs "never_add" (lower keyword) = false →
  ∀ level i, list_index level skill_hierarchy = Some i →
  validate_keyword vs keyword level
  = Some (existsb (λ l, registered vs l (lower keyword)) (drop i skill_hierarchy)).
Proof.
  intros Hn level i Hi. unfold validate_keyword. rewrite Hn.
  by rewrite Hi.
Qed.

(** Validation at a level implies validation at every lower level. *)
Lemma validate_keyword_mono vs keyword lo hi i j :
  list_index lo skill_hierarchy = Some i →
  list_index hi skill_hierarchy = Some j →
  (i ≤ j)%nat →
  validate_keyword vs keyword hi = Some true →
  validate_keyword vs keyword lo = Some true.
Proof.
  intros Hi Hj Hle.
  destruct (registered vs "never_add" (lower keyword)) eqn:Hn.
  { unfold validate_keyword. rewrite Hn. done. }
  rewrite (validate_keyword_allowed vs keyword Hn lo i Hi).
  rewrite (validate_keyword_allowed vs keyword Hn hi j Hj).
  intros [= Hex]. f_equal.
  apply existsb_exists in Hex as (l & Hin & Hl).
  apply existsb_exists. exists l. split; [|done].
  replace j with (i + (j - i))%nat in Hin by lia.
  rewrite <-drop_drop in Hin.
  apply list_elem_of_In. apply list_elem_of_In in Hin.
  revert Hin. apply subseteq_drop.
Qed.

Lemma validate_keyword_total vs keyword level i :
  list_index level skill_hierarchy = Some i →
  is_Some (validate_keyword vs keyword level).
Proof.
  intros Hi. unfold validate_keyword.
  destruct (registered vs "never_add" (lower keyword)); [by eexists|].
  rewrite Hi. by eexists.
Qed.

Lemma gate_loop_total vs level i keywords acc :
  list_index level skill_hierarchy = Some i →
  is_Some (gate_loop vs level keywords acc).
Proof.
  intros Hi. revert acc.
  induction keywords as [|[k c] keywords IH]; intros acc; cbn [gate_loop].
  { by eexists. }
  destruct (validate_keyword_total vs k level i Hi) as [b ->]. apply IH.
Qed.

Lemma gate_loop_rejects vs level keywords acc :
  Forall (λ kc, validate_keyword vs kc.1 level = Some false) keywords →
  gate_loop vs level keywords acc = Some acc.
Proof.
  induction 1 as [|[k c] keywords Hk _ IH]; [done|].
  cbn [gate_loop]. cbn in Hk. by rewrite Hk.
Qed.

(** ** Keyword maps have lower-case keys *)

Lemma tech_keywords_lowercase : Forall (λ k, lower k = k) tech_keywords.
Proof. apply (bool_decide_unpack _). vm_compute. exact I. Qed.

Lemma count_keywords_lowercase vocab text :
  Forall (λ k, lower k = k) vocab → lowercase_keys (count_keywords vocab text).
Proof.
  unfold count_keywords. generalize (Re.findall Re.match_token text).
  intros words Hvocab.
  assert (Hacc : lowercase_keys []) by constructor.
  revert Hacc. generalize (@nil (string * Z)).
  induction Hvocab as [|k vocab Hk _ IH]; intros acc Hacc; [done|].
  cbn [foldl]. apply IH.
  destruct (0 <? keyword_count text words k)%nat; [|done].
  by apply dict_set_lowercase.
Qed.

Lemma gate_loop_lowercase vs level keywords acc safe :
  lowercase_keys keywords → lowercase_keys acc →
  gate_loop vs level keywords acc = Some safe → lowercase_keys safe.
Proof.
  intros Hk. revert acc.
  induction Hk as [|[k c] keywords Hk _ IH]; intros acc Hacc; cbn [gate_loop].
  { by intros [= <-]. }
  destruct (validate_keyword vs k level) as [[]|]; cbn [mbind option_bind];
    [|by apply IH|done].
  apply IH. by apply dict_set_lowercase.
Qed.

Lemma extract_keywords_lowercase text : lowercase_keys (extract_keywords text).
Proof. apply count_keywords_lowercase, tech_keywords_lowercase. Qed.

(** The maps [optimize_resume] hands to [reorder_technologies] and
    [add_relevant_skills] have lower-case keys when the job keywords do,
    as those [extract_keywords] finds. *)
Lemma safe_keywords_lowercase vs job_keywords safe relevant :
  lowercase_keys job_keywords →
  filter_safe_keywords vs job_keywords = Some safe →
  gate_loop vs "familiar" safe [] = Some relevant →
  lowercase_keys safe ∧ lowercase_keys relevant.
Proof.
  unfold filter_safe_keywords. intros H0 Hsafe Hrel.
  assert (Hnil : lowercase_keys []) by constructor.
  assert (H1 : lowercase_keys safe)
    by exact (gate_loop_lowercase vs _ _ _ _ H0 Hnil Hsafe).
  split; [exact H1|].
  exact (gate_loop_lowercase vs _ _ _ _ H1 Hnil Hrel).
Qed.


(** ** C2: normalization before counting *)

(** C2, as stated, fails: the class [\w] that [extract_keywords] keeps
    contains the underscore, which is neither a letter nor a digit. On
    the text [python_] the code finds the single token [python_] and
    reports nothing, while the text normalized as the claim describes is
    [python ] and yields [python] once. *)
Lemma extract_keywords_spec_normalize_fails :
  extract_keywords "python_" = []
  ∧ extract_keywords (spec_normalize "python_") = [("python", 1)]
  ∧ ¬ (∀ text, extract_keywords text = extract_keywords (spec_normalize text)).
Proof.
  assert (H1 : extract_keywords "python_" = []) by (vm_compute; reflexivity).
  assert (H2 : extract_keywords (spec_normalize "python_") = [("python", 1)])
    by (vm_compute; reflexivity).
  split; [exact H1|]. split; [exact H2|].
  intros Hall. specialize (Hall "python_"). rewrite H1, H2 in Hall. discriminate.
Qed.

(** C2 (amended): for every text and every iteration order of the
    vocabulary, [extract_keywords] lower-cases the text and replaces by a
    space every character that is not alphanumeric, underscore,
    whitespace, dot or hyphen, and then tokenizes and counts; so its
    result on a text equals its result on the text so normalized. *)
Theorem extract_keywords_normalizes vocab text :
  normalize text
  = blank_outside
      (λ c, Char.is_alnum c || is_underscore c || Char.is_space c
            || Char.is_dot c || Char.is_hyphen c)
      (lower text)
  ∧ extract_keywords_over vocab text = count_keywords vocab (normalize text)
  ∧ extract_keywords_over vocab text
    = extract_keywords_over vocab (normalize text).
Proof.
  split; [apply sub_unkept_blank|]. split; [done|].
  unfold extract_keywords_over. by rewrite normalize_idem.
Qed.

(** On texts without an underscore the two normalizations agree. *)
Lemma spec_normalize_agrees text :
  has_char "_"%char text = false → spec_normalize text = normalize text.
Proof.
  unfold spec_normalize, normalize. rewrite sub_unkept_blank.
  induction text as [|c text IH]; [done|].
  cbn [has_char lower blank_outside].
  destruct (ascii_dec "_" c) as [<-|Hc]; [done|]. intros H.
  rewrite (IH H). f_equal.
  assert (Hu : is_underscore (Char.lower c) = false).
  { revert Hc. each_char c; vm_compute; congruence. }
  rewrite Hu. by rewrite orb_false_r.
Qed.

(** ** C10: vocabulary terms that can never be found *)

(** C10: whatever the text and the iteration order of the vocabulary,
    the terms [c++], [c#] and [ci/cd] belong to the vocabulary, get the
    count 0 and are absent from the mapping [extract_keywords] returns;
    the characters [+], [#] and [/] are outside the class the
    normalization keeps and outside the class tokens are made of. *)
Theorem symbol_terms_never_emitted vocab text :
  Forall
    (λ k, k ∈ tech_keywords
          ∧ keyword_count (normalize text)
              (Re.findall Re.match_token (normalize text)) k = O
          ∧ dict_get k (extract_keywords_over vocab text) = None)
    ["c++"; "c#"; "ci/cd"]
  ∧ Forall (λ c, Char.is_kept c = false ∧ Char.is_token c = false)
      ["+"; "#"; "/"]%char.
Proof.
  assert (Hone : ∀ k,
    has_char Char.space k = false → all_chars Char.is_token k = false →
    bool_decide (k ∈ tech_keywords) = true →
    k ∈ tech_keywords
    ∧ keyword_count (normalize text)
        (Re.findall Re.match_token (normalize text)) k = O
    ∧ dict_get k (extract_keywords_over vocab text) = None).
  { intros k Hsp Htok Hin. split; [by apply bool_decide_eq_true in Hin|].
    split; [by apply keyword_count_non_token|].
    by apply count_keywords_absent, keyword_count_non_token. }
  split.
  - repeat apply Forall_cons_2; [..|apply Forall_nil_2];
      apply Hone; vm_compute; reflexivity.
  - repeat apply Forall_cons_2; [..|apply Forall_nil_2];
      split; vm_compute; reflexivity.
Qed.

(** ** C1, C6, C9: the skill gate *)

(** C1: a keyword whose lower-case form is among the lower-cased
    [never_add] entries is rejected at every minimum level, whatever the
    other lists hold; in particular, with [react] in both [never_add] and
    [expert], [validate_keyword("react", "learning")] is false. *)
Theorem never_add_always_wins :
  (∀ vs keyword min_level,
     lower keyword ∈ lower <$> skills_at vs "never_add" →
     validate_keyword vs keyword min_level = Some false)
  ∧ (∀ vs,
       "react" ∈ skills_at vs "never_add" → "react" ∈ skills_at vs "expert" →
       validate_keyword vs "react" "learning" = Some false).
Proof.
  assert (Hgen : ∀ vs keyword min_level,
     lower keyword ∈ lower <$> skills_at vs "never_add" →
     validate_keyword vs keyword min_level = Some false).
  { intros vs keyword min_level H. unfold validate_keyword, registered.
    by rewrite bool_decide_eq_true_2. }
  split; [exact Hgen|].
  intros vs Hn _. apply Hgen.
  apply (list_elem_of_fmap_2 lower) in Hn. exact Hn.
Qed.

Lemma never_add_always_wins_witness :
  "react" ∈ skills_at scenario_b "never_add"
  ∧ "react" ∈ skills_at scenario_b "expert"
  ∧ validate_keyword scenario_b "react" "learning" = Some false.
Proof.
  assert (H1 : "react" ∈ skills_at scenario_b "never_add")
    by (apply (bool_decide_unpack _); vm_compute; exact I).
  assert (H2 : "react" ∈ skills_at scenario_b "expert")
    by (apply (bool_decide_unpack _); vm_compute; exact I).
  split; [exact H1|]. split; [exact H2|].
  exact (proj2 never_add_always_wins scenario_b H1 H2).
Defined.

(** C6: a keyword validated at minimum level [expert] is validated at
    the minimum levels [proficient], [familiar] and [learning]. *)
Theorem validate_keyword_monotone vs k :
  validate_keyword vs k "expert" = Some true →
  validate_keyword vs k "proficient" = Some true
  ∧ validate_keyword vs k "familiar" = Some true
  ∧ validate_keyword vs k "learning" = Some true.
Proof.
  destruct hierarchy_index as (H0 & H1 & H2 & H3). intros H.
  repeat split.
  - apply (validate_keyword_mono vs k _ _ _ _ H2 H3); [lia|done].
  - apply (validate_keyword_mono vs k _ _ _ _ H1 H3); [lia|done].
  - apply (validate_keyword_mono vs k _ _ _ _ H0 H3); [lia|done].
Qed.

Lemma validate_keyword_monotone_witness :
  validate_keyword expert_rust "rust" "expert" = Some true
  ∧ validate_keyword expert_rust "rust" "proficient" = Some true
  ∧ validate_keyword expert_rust "rust" "familiar" = Some true
  ∧ validate_keyword expert_rust "rust" "learning" = Some true.
Proof.
  assert (H : validate_keyword expert_rust "rust" "expert" = Some true)
    by (vm_compute; reflexivity).
  split; [exact H|]. exact (validate_keyword_monotone expert_rust "rust" H).
Defined.

(** C9: [get_skill_level] reports the first of [expert], [proficient],
    [familiar], [learning], in that order, at which the lower-cased
    keyword is among the lower-cased entries, and [unknown] when there is
    none; a keyword registered at several levels is therefore reported at
    the highest of them. *)
Theorem get_skill_level_first_match vs keyword :
  let reg level := registered vs level (lower keyword) in
  (reg "expert" = true → get_skill_level vs keyword = "expert")
  ∧ (reg "expert" = false → reg "proficient" = true →
     get_skill_level vs keyword = "proficient")
  ∧ (reg "expert" = false → reg "proficient" = false → reg "familiar" = true →
     get_skill_level vs keyword = "familiar")
  ∧ (reg "expert" = false → reg "proficient" = false → reg "familiar" = false →
     reg "learning" = true → get_skill_level vs keyword = "learning")
  ∧ (reg "expert" = false → reg "proficient" = false → reg "familiar" = false →
     reg "learning" = false → get_skill_level vs keyword = "unknown")
  ∧ (∀ level i,
       list_index level skill_hierarchy = Some i → reg level = true →
       ∃ j, list_index (get_skill_level vs keyword) skill_hierarchy = Some j
            ∧ (i ≤ j)%nat ∧ reg (get_skill_level vs keyword) = true).
Proof.
  intros reg. unfold get_skill_level. cbn [first_level]. fold (reg "expert").
  fold (reg "proficient"). fold (reg "familiar"). fold (reg "learning").
  destruct hierarchy_index as (H0 & H1 & H2 & H3).
  repeat split; try (intros; repeat match goal with H : reg _ = _ |- _ => rewrite H end; done).
  intros level i Hi Hreg.
  destruct (reg "expert") eqn:He.
  { exists 3%nat. split; [done|]. split; [|done].
    apply list_index_hierarchy in Hi.
    destruct Hi as [[-> ->]|[[-> ->]|[[-> ->]|[-> ->]]]]; first [lia|congruence]. }
  destruct (reg "proficient") eqn:Hp.
  { exists 2%nat. split; [done|]. split; [|done].
    apply list_index_hierarchy in Hi.
    destruct Hi as [[-> ->]|[[-> ->]|[[-> ->]|[-> ->]]]]; first [lia|congruence]. }
  destruct (reg "familiar") eqn:Hf.
  { exists 1%nat. split; [done|]. split; [|done].
    apply list_index_hierarchy in Hi.
    destruct Hi as [[-> ->]|[[-> ->]|[[-> ->]|[-> ->]]]]; first [lia|congruence]. }
  destruct (reg "learning") eqn:Hl.
  { exists 0%nat. split; [done|]. split; [|done].
    apply list_index_hierarchy in Hi.
    destruct Hi as [[-> ->]|[[-> ->]|[[-> ->]|[-> ->]]]]; first [lia|congruence]. }
  apply list_index_hierarchy in Hi.
  destruct Hi as [[-> ->]|[[-> ->]|[[-> ->]|[-> ->]]]]; congruence.
Qed.

Lemma get_skill_level_first_match_witness :
  registered two_levels "expert" (lower "PYTHON") = false
  ∧ registered two_levels "proficient" (lower "PYTHON") = true
  ∧ registered two_levels "learning" (lower "PYTHON") = true
  ∧ get_skill_level two_levels "PYTHON" = "proficient".
Proof.
  assert (H1 : registered two_levels "expert" (lower "PYTHON") = false)
    by (vm_compute; reflexivity).
  assert (H2 : registered two_levels "proficient" (lower "PYTHON") = true)
    by (vm_compute; reflexivity).
  split; [exact H1|]. split; [exact H2|]. split; [vm_compute; reflexivity|].
  exact (proj1 (proj2 (get_skill_level_first_match two_levels "PYTHON")) H1 H2).
Defined.

(** ** C5: the summary *)

(** C5: [enhance_summary] looks at the first three keywords only and
    keeps those that do not occur in the lower-cased summary. With none
    kept the summary is returned as it is; otherwise a summary ending in
    a dot has that dot replaced by [, including expertise in <list>.], and
    any other summary gets [ Experienced with <list>.] appended, the list
    being the kept keywords joined by a comma and a space. *)
Theorem enhance_summary_spec summary top_keywords :
  let kept :=
    List.filter (λ k, negb (contains k (lower summary))) (take 3 top_keywords) in
  (kept = [] → enhance_summary summary top_keywords = summary)
  ∧ (kept ≠ [] → ∀ body, summary = body +:+ "." →
     enhance_summary summary top_keywords
     = body +:+ ", including expertise in " +:+ join ", " kept +:+ ".")
  ∧ (kept ≠ [] → (∀ body, summary ≠ body +:+ ".") →
     enhance_summary summary top_keywords
     = summary +:+ " Experienced with " +:+ join ", " kept +:+ ".")
  ∧ enhance_summary "Skilled engineer." ["rust"; "go"]
    = "Skilled engineer, including expertise in rust, go.".
Proof.
  intros kept. unfold enhance_summary. fold kept.
  split; [by intros ->|]. split; [|split].
  - intros Hne body ->. destruct kept as [|k kept']; [done|].
    assert (Hd : ends_with_dot (body +:+ ".") = true)
      by (apply ends_with_dot_spec; by exists body).
    rewrite Hd, str_app_length. cbn [String.length].
    replace (String.length body + 1 - 1)%nat with (String.length body) by lia.
    by rewrite str_take_app.
  - intros Hne Hnodot. destruct kept as [|k kept']; [done|].
    destruct (ends_with_dot summary) eqn:Hd; [|done].
    apply ends_with_dot_spec in Hd as [body ->]. by destruct (Hnodot body).
  - vm_compute. reflexivity.
Qed.

Lemma enhance_summary_spec_witness :
  List.filter (λ k, negb (contains k (lower "Senior Go developer")))
    (take 3 ["go"; "rust"; "python"; "java"]) = ["rust"; "python"]
  ∧ enhance_summary "Senior Go developer" ["go"; "rust"; "python"; "java"]
    = "Senior Go developer Experienced with rust, python.".
Proof.
  split; [vm_compute; reflexivity|].
  refine (eq_trans
    (proj1 (proj2 (proj2
       (enhance_summary_spec "Senior Go developer"
          ["go"; "rust"; "python"; "java"]))) _ _) _).
  - vm_compute. discriminate.
  - intros body H. apply (f_equal str_last) in H.
    rewrite str_last_snoc in H. vm_compute in H. discriminate.
  - vm_compute. reflexivity.
Defined.

(** ** C4: nothing to add *)

(** C4: [optimize_resume] returns the resume as it received it when the
    keyword map is empty, and when no keyword validates at the minimum
    level [familiar], so that [filter_safe_keywords] returns the empty
    map; on the empty job text [extract_keywords] returns the empty map,
    whatever the iteration order of the vocabulary, and [optimize_resume]
    changes nothing. *)
Theorem optimize_resume_noop vs resume :
  optimize_resume vs resume [] = Some resume
  ∧ (∀ job_keywords,
       filter_safe_keywords vs job_keywords = Some [] →
       optimize_resume vs resume job_keywords = Some resume)
  ∧ (∀ job_keywords,
       Forall (λ kc, validate_keyword vs kc.1 "familiar" = Some false)
         job_keywords →
       filter_safe_keywords vs job_keywords = Some []
       ∧ optimize_resume vs resume job_keywords = Some resume)
  ∧ (∀ vocab,
       extract_keywords_over vocab "" = []
       ∧ optimize_resume vs resume (extract_keywords_over vocab "")
         = Some resume).
Proof.
  assert (Hsafe : ∀ job_keywords,
    filter_safe_keywords vs job_keywords = Some [] →
    optimize_resume vs resume job_keywords = Some resume).
  { intros kws H. unfold optimize_resume. rewrite H. by destruct kws. }
  split; [done|]. split; [exact Hsafe|]. split.
  - intros kws Hall.
    assert (H : filter_safe_keywords vs kws = Some [])
      by (by apply gate_loop_rejects).
    split; [exact H|by apply Hsafe].
  - intros vocab.
    assert (H : extract_keywords_over vocab "" = [])
      by apply count_keywords_empty.
    split; [exact H|]. by rewrite H.
Qed.

Lemma optimize_resume_noop_witness :
  Forall (λ kc, validate_keyword no_skills kc.1 "familiar" = Some false)
    [("python", 2); ("go", 1)]
  ∧ optimize_resume no_skills small_resume [("python", 2); ("go", 1)]
    = Some small_resume.
Proof.
  assert (H : Forall
    (λ kc : string * Z, validate_keyword no_skills kc.1 "familiar" = Some false)
    [("python", 2); ("go", 1)]).
  { repeat constructor; vm_compute; reflexivity. }
  split; [exact H|].
  exact (proj2 (proj1 (proj2 (proj2
    (optimize_resume_noop no_skills small_resume))) _ H)).
Defined.

(** ** C3: reordering the technology items *)

Lemma sum_list_cons x l : sum_list (x :: l) = x + sum_list l.
Proof. reflexivity. Qed.

Lemma mapM_str_of l ds : mapM str_of l = Some ds → l = VStr <$> ds.
Proof.
  rewrite mapM_Some. induction 1 as [|v s l ds Hv _ IH]; [done|].
  destruct v; try done. cbn in Hv. injection Hv as ->. by rewrite IH.
Qed.

Lemma details_of_well_formed tech_item ds :
  item_details tech_item = Some ds →
  details_of tech_item = Some (VStr <$> ds).
Proof.
  destruct tech_item as [| | | |l|d]; try done. cbn [item_details details_of].
  destruct (dict_get "details" d) as [[| | |s|l|d']|]; cbn; try done.
  - by intros [= <-].
  - by intros ->%mapM_str_of.
  - by intros [= <-].
Qed.

Lemma score_detail_spec matched detail_lower score :
  score_detail matched detail_lower score
  = score + sum_list ((λ kc, kc.2 * 10) <$>
                      List.filter (λ kc, contains kc.1 detail_lower) matched).
Proof.
  unfold score_detail. revert score.
  induction matched as [|[k c] matched IH]; intros score.
  { cbn. lia. }
  cbn [foldl List.filter fst snd]. rewrite IH.
  destruct (contains k detail_lower); [|done].
  rewrite fmap_cons, sum_list_cons. cbn [snd]. lia.
Qed.

Lemma score_details_spec matched ds score :
  score_details matched (VStr <$> ds) score
  = Some (score + score_of matched ds).
Proof.
  revert score. induction ds as [|d ds IH]; intros score.
  { cbn. f_equal. lia. }
  cbn [fmap list_fmap score_details lower_of mbind option_bind].
  change (list_fmap string value VStr ds) with (VStr <$> ds).
  rewrite IH, score_detail_spec. f_equal.
  unfold score_of. rewrite fmap_cons, sum_list_cons. lia.
Qed.

Lemma keyword_score_spec matched tech_item :
  is_Some (item_details tech_item) →
  keyword_score matched tech_item = Some (item_score matched tech_item).
Proof.
  intros [ds Hds]. unfold keyword_score, item_score.
  rewrite (details_of_well_formed _ _ Hds), Hds. cbn [mbind option_bind].
  by rewrite score_details_spec.
Qed.

Lemma mapM_keyed matched items :
  well_formed_items items →
  mapM (λ it, (λ score, (score, it)) <$> keyword_score matched it) items
  = Some ((λ it, (item_score matched it, it)) <$> items).
Proof.
  intros Hwf. apply mapM_Some.
  induction Hwf as [|it items Hit _ IH]; constructor; [|exact IH].
  by rewrite keyword_score_spec.
Qed.

Lemma reorder_technologies_sorted items matched :
  well_formed_items items →
  reorder_technologies (VList items) matched
  = Some (VList (sorted_desc (item_score matched) items)).
Proof.
  intros Hwf. unfold reorder_technologies.
  destruct items as [|it items]; [done|].
  cbn [truthy length]. rewrite bool_decide_eq_false_2 by done. cbn [negb].
  rewrite mapM_keyed by done. cbn [mbind option_bind].
  by rewrite sorted_desc_keyed.
Qed.

(** With lower-case keys the code's test is the occurrence ignoring
    case, and the score is the one the specification words. *)
Lemma score_of_lowercase matched details :
  lowercase_keys matched → score_of matched details = spec_score matched details.
Proof.
  intros Hlow. unfold score_of, spec_score. f_equal.
  apply list_fmap_ext. intros _ detail _. do 2 f_equal.
  apply List.filter_ext_in. intros [k c] Hin.
  unfold lowercase_keys in Hlow. rewrite Forall_forall in Hlow.
  apply list_elem_of_In, Hlow in Hin. cbn [fst] in *.
  unfold occurs_in. by rewrite Hin.
Qed.

(** C3: on items of the documented shape, [reorder_technologies] returns
    the input items in stable descending order of score: the result is a
    permutation of the input of the same length, sorted by descending
    score, in which the items of any one score keep their input order,
    and it is the only list with the last two properties. The score of
    an item is the sum, over its detail strings (a single string being
    one detail), of count * 10 for each keyword that occurs in the
    lower-cased detail; on a keyword map with lower-case keys, as the
    vocabulary yields, that is each keyword that occurs in the detail
    ignoring case. On Scenario D the result is [B, A], the scores being
    10 for A and 50 for B. *)
Theorem reorder_technologies_stable_sort :
  (∀ items matched,
     well_formed_items items →
     ∃ out,
       reorder_technologies (VList items) matched = Some (VList out)
       ∧ out ≡ₚ items
       ∧ length out = length items
       ∧ StronglySorted
           (λ a b, item_score matched b ≤ item_score matched a) out
       ∧ (∀ z, filter (λ it, item_score matched it = z) out
               = filter (λ it, item_score matched it = z) items)
       ∧ (∀ out',
            StronglySorted
              (λ a b, item_score matched b ≤ item_score matched a) out' →
            (∀ z, filter (λ it, item_score matched it = z) out'
                  = filter (λ it, item_score matched it = z) items) →
            out' = out))
  ∧ (∀ matched tech_item,
       lowercase_keys matched →
       item_score matched tech_item
       = spec_score matched (default [] (item_details tech_item)))
  ∧ reorder_technologies
      (VList [item "A" ["uses java"]; item "B" ["uses python"]])
      [("python", 5); ("java", 1)]
    = Some (VList [item "B" ["uses python"]; item "A" ["uses java"]])
  ∧ item_score [("python", 5); ("java", 1)] (item "A" ["uses java"]) = 10
  ∧ item_score [("python", 5); ("java", 1)] (item "B" ["uses python"]) = 50.
Proof.
  split; [|split; [|repeat split; vm_compute; reflexivity]].
  - intros items matched Hwf.
    exists (sorted_desc (item_score matched) items).
    split; [by apply reorder_technologies_sorted|].
    split; [apply sorted_desc_perm|].
    split; [by rewrite sorted_desc_perm|].
    split; [apply sorted_desc_sorted|].
    split; [intros z; apply sorted_desc_stable|].
    intros out' Hsorted Hstable.
    apply (stable_sorted_unique (item_score matched));
      [exact Hsorted|apply sorted_desc_sorted|].
    intros z. rewrite Hstable. symmetry. apply sorted_desc_stable.
  - intros matched tech_item Hlow. by apply score_of_lowercase.
Qed.

Lemma reorder_technologies_stable_sort_witness :
  lowercase_keys [("python", 5); ("java", 1)]
  ∧ well_formed_items scenario_items
  ∧ (∃ out,
       reorder_technologies (VList scenario_items) [("python", 5); ("java", 1)]
       = Some (VList out)
       ∧ out ≡ₚ scenario_items)
  ∧ item_score [("python", 5); ("java", 1)] (item "Languages" ["Python"; "Go"])
    = spec_score [("python", 5); ("java", 1)] ["Python"; "Go"].
Proof.
  assert (H1 : lowercase_keys [("python", 5); ("java", 1)])
    by (repeat constructor).
  assert (H2 : well_formed_items scenario_items)
    by (repeat constructor; vm_compute; eexists; reflexivity).
  split; [exact H1|]. split; [exact H2|]. split.
  - destruct (proj1 reorder_technologies_stable_sort scenario_items
                [("python", 5); ("java", 1)] H2)
      as (out & Hout & Hperm & _).
    exists out. split; [exact Hout|exact Hperm].
  - exact (proj1 (proj2 reorder_technologies_stable_sort)
             [("python", 5); ("java", 1)]
             (item "Languages" ["Python"; "Go"]) H1).
Defined.

(** ** C7: the job-relevant section *)

Lemma mapM_lower_of ds : mapM lower_of (VStr <$> ds) = Some (lower <$> ds).
Proof.
  apply mapM_Some. induction ds as [|d ds IH]; constructor; [done|exact IH].
Qed.

Lemma mapM_str_of_fmap ds : mapM str_of (VStr <$> ds) = Some ds.
Proof.
  apply mapM_Some. induction ds as [|d ds IH]; constructor; [done|exact IH].
Qed.

Lemma existing_loop_spec items existing :
  well_formed_items items →
  existing_loop items existing
  = Some (existing ∪ list_to_set (lower <$> section_details items)).
Proof.
  intros Hwf. revert existing.
  induction Hwf as [|it items [ds Hds] _ IH]; intros existing.
  { cbn. f_equal. set_solver. }
  cbn [existing_loop]. rewrite (details_of_well_formed _ _ Hds).
  cbn [mbind option_bind]. rewrite mapM_lower_of. cbn [mbind option_bind].
  rewrite IH. f_equal. unfold section_details.
  rewrite fmap_cons, Hds. cbn [default concat].
  rewrite fmap_app, list_to_set_app_L. set_solver.
Qed.

Lemma top_keywords_lowercase matched n :
  lowercase_keys matched →
  Forall (λ kw, lower kw = kw) (take n (sorted_desc snd matched)).*1.
Proof.
  intros Hlow. apply Forall_fmap, Forall_take.
  unfold lowercase_keys in Hlow. by rewrite sorted_desc_perm.
Qed.

Lemma item_details_job_section new_keywords :
  item_details (job_relevant_section new_keywords) = Some (take 6 new_keywords).
Proof.
  unfold job_relevant_section, item_details. cbn [dict_get].
  rewrite decide_False by done. rewrite decide_True by done.
  apply mapM_str_of_fmap.
Qed.

(** What [add_relevant_skills] returns on a section list of the
    documented shape. *)
Lemma add_relevant_skills_shape items matched :
  well_formed_items items →
  let new_keywords :=
    List.filter
      (λ kw, bool_decide (kw ∉ lower <$> section_details items))
      (take 8 (sorted_desc snd matched)).*1 in
  add_relevant_skills (VList items) matched
  = Some (VList (match new_keywords with
                 | [] => items
                 | _ => job_relevant_section new_keywords :: items
                 end)).
Proof.
  intros Hwf new_keywords. unfold add_relevant_skills.
  destruct matched as [|kc matched]; [done|].
  cbn [py_iter mbind option_bind]. rewrite existing_loop_spec by done.
  cbn [mbind option_bind].
  assert (Heq :
    List.filter
      (λ kw, bool_decide
               (kw ∉ (∅ : gset string)
                     ∪ list_to_set (lower <$> section_details items)))
      (take 8 (sorted_desc snd (kc :: matched))).*1 = new_keywords).
  { apply List.filter_ext. intros kw. apply bool_decide_ext. set_solver. }
  rewrite Heq. by destruct new_keywords.
Qed.

(** C7: on a section list of the documented shape, [add_relevant_skills]
    keeps the top-8 keywords that are not the lower-case form of an
    existing detail (details given as one string counting as one detail);
    when none is kept it returns the section list as it is, and otherwise
    it prepends one section whose details are the first six kept
    keywords. On a keyword map with lower-case keys, as the vocabulary
    yields, the keywords dropped are exactly those whose lower-case form
    is the lower-case form of an existing detail, and no detail of the
    prepended section equals an existing detail ignoring case. *)
Theorem add_relevant_skills_no_duplicates :
  (∀ items matched,
     well_formed_items items →
     let new_keywords :=
       List.filter
         (λ kw, bool_decide (kw ∉ lower <$> section_details items))
         (take 8 (sorted_desc snd matched)).*1 in
     add_relevant_skills (VList items) matched
     = Some (VList (match new_keywords with
                    | [] => items
                    | _ => job_relevant_section new_keywords :: items
                    end))
     ∧ item_details (job_relevant_section new_keywords)
       = Some (take 6 new_keywords)
     ∧ (∀ new old,
          new ∈ take 6 new_keywords → old ∈ section_details items →
          new ≠ lower old))
  ∧ (∀ items matched,
       lowercase_keys matched →
       let new_keywords :=
         List.filter
           (λ kw, bool_decide (kw ∉ lower <$> section_details items))
           (take 8 (sorted_desc snd matched)).*1 in
       new_keywords
       = List.filter
           (λ kw, bool_decide (lower kw ∉ lower <$> section_details items))
           (take 8 (sorted_desc snd matched)).*1
       ∧ (∀ new old,
            new ∈ take 6 new_keywords → old ∈ section_details items →
            lower new ≠ lower old)).
Proof.
  assert (Hkept : ∀ items matched new old,
    new ∈ take 6 (List.filter
                    (λ kw, bool_decide (kw ∉ lower <$> section_details items))
                    (take 8 (sorted_desc snd matched)).*1) →
    old ∈ section_details items → new ≠ lower old).
  { intros items matched new old Hnew Hold Heq.
    apply (subseteq_take 6) in Hnew.
    apply list_elem_of_In, filter_In in Hnew as [_ Hnew].
    apply bool_decide_eq_true in Hnew. apply Hnew. rewrite Heq.
    by apply list_elem_of_fmap_2. }
  split.
  - intros items matched Hwf new_keywords.
    split; [by apply add_relevant_skills_shape|].
    split; [apply item_details_job_section|].
    apply Hkept.
  - intros items matched Hlow new_keywords.
    pose proof (top_keywords_lowercase matched 8 Hlow) as Hall.
    rewrite Forall_forall in Hall. split.
    + apply List.filter_ext_in. intros kw Hin.
      apply list_elem_of_In, Hall in Hin. by rewrite Hin.
    + intros new old Hnew Hold.
      assert (Hlower : lower new = new).
      { apply Hall. apply (subseteq_take 6) in Hnew.
        apply list_elem_of_In, filter_In in Hnew as [Hnew _].
        by apply list_elem_of_In. }
      rewrite Hlower. by apply (Hkept items matched).
Qed.

Lemma add_relevant_skills_no_duplicates_witness :
  lowercase_keys [("python", 5); ("java", 1); ("go", 2); ("zsh", 1)]
  ∧ well_formed_items scenario_items
  ∧ add_relevant_skills (VList scenario_items)
      [("python", 5); ("java", 1); ("go", 2); ("zsh", 1)]
    = Some (VList (job_relevant_section ["java"; "zsh"] :: scenario_items))
  ∧ (∀ old, old ∈ section_details scenario_items → lower "zsh" ≠ lower old).
Proof.
  assert (H1 : lowercase_keys [("python", 5); ("java", 1); ("go", 2); ("zsh", 1)])
    by (repeat constructor).
  assert (H2 : well_formed_items scenario_items)
    by (repeat constructor; vm_compute; eexists; reflexivity).
  split; [exact H1|]. split; [exact H2|]. split.
  - refine (eq_trans
      (proj1 (proj1 add_relevant_skills_no_duplicates scenario_items _ H2)) _).
    vm_compute. reflexivity.
  - intros old.
    apply (proj2 (proj2 add_relevant_skills_no_duplicates scenario_items _ H1)).
    apply (bool_decide_unpack _). vm_compute. exact I.
Defined.

(** ** C8: what [optimize_resume] leaves alone *)

Lemma set_path_frame q x v v' p :
  set_path q x v = Some v' →
  ¬ p `prefix_of` q → ¬ q `prefix_of` p →
  get_path p v' = get_path p v.
Proof.
  revert v v' p. induction q as [|k q IH]; intros v v' p Hset Hpq Hqp.
  { destruct Hqp. apply prefix_nil. }
  destruct p as [|k' p]; [destruct Hpq; apply prefix_nil|].
  cbn [set_path] in Hset. destruct v as [| | | | |d]; try done.
  cbn [py_getitem mbind option_bind] in Hset.
  destruct (dict_get k d) as [old|] eqn:Hold; [|done].
  cbn [mbind option_bind] in Hset.
  destruct (set_path q x old) as [new|] eqn:Hnew; [|done].
  cbn [mbind option_bind py_setitem] in Hset. injection Hset as <-.
  cbn [get_path py_getitem].
  destruct (decide (k' = k)) as [->|Hne].
  - rewrite dict_get_set_eq, Hold. cbn [mbind option_bind].
    apply (IH _ _ _ Hnew).
    + intros H. apply Hpq. by apply prefix_cons.
    + intros H. apply Hqp. by apply prefix_cons.
  - by rewrite dict_get_set_ne.
Qed.

Lemma set_path_keys q x v v' p :
  set_path q x v = Some v' →
  ¬ q `prefix_of` p →
  keys_at p v' = keys_at p v.
Proof.
  revert v v' p. induction q as [|k q IH]; intros v v' p Hset Hqp.
  { destruct Hqp. apply prefix_nil. }
  cbn [set_path] in Hset. destruct v as [| | | | |d]; try done.
  cbn [py_getitem mbind option_bind] in Hset.
  destruct (dict_get k d) as [old|] eqn:Hold; [|done].
  cbn [mbind option_bind] in Hset.
  destruct (set_path q x old) as [new|] eqn:Hnew; [|done].
  cbn [mbind option_bind py_setitem] in Hset. injection Hset as <-.
  unfold keys_at. destruct p as [|k' p].
  - cbn [get_path mbind option_bind]. f_equal.
    apply dict_set_keys. by rewrite Hold.
  - cbn [get_path py_getitem].
    destruct (decide (k' = k)) as [->|Hne].
    + rewrite dict_get_set_eq, Hold. cbn [mbind option_bind].
      apply (IH _ _ _ Hnew). intros H. apply Hqp. by apply prefix_cons.
    + by rewrite dict_get_set_ne.
Qed.

Lemma set_path_get q x v v' :
  set_path q x v = Some v' → is_Some (get_path q v).
Proof.
  revert v v'. induction q as [|k q IH]; intros v v' Hset; [by eexists|].
  cbn [set_path] in Hset. cbn [get_path].
  destruct (py_getitem v k) as [old|]; [|done].
  cbn [mbind option_bind] in *.
  destruct (set_path q x old) as [new|] eqn:Hnew; [|done].
  by apply (IH _ _ Hnew).
Qed.

Lemma optimize_summary_step vs safe r r' :
  optimize_summary vs safe r = Some r' → step_at ["cv"; "summary"] r r'.
Proof.
  unfold optimize_summary.
  destruct (dict_get "cv" r) as [cv|] eqn:Hcv; [|intros [= <-]; by left].
  destruct (py_contains "summary" cv) as [[]|]; cbn [mbind option_bind];
    [|intros [= <-]; by left|done].
  destruct (gate_loop vs "proficient" safe []) as [ek|]; [|done].
  cbn [mbind option_bind].
  destruct (py_getitem cv "summary") as [[| | |s| |]|] eqn:Hold; try done.
  cbn [mbind option_bind].
  destruct (py_setitem cv "summary" _) as [cv'|] eqn:Hcv'; [|done].
  cbn [mbind option_bind]. intros [= <-]. right.
  exists (VStr (enhance_summary s (sorted_desc snd ek).*1)).
  cbn [set_path py_getitem mbind option_bind]. rewrite Hcv.
  cbn [mbind option_bind]. rewrite Hold. cbn [mbind option_bind].
  rewrite Hcv'. done.
Qed.

Lemma optimize_technologies_step vs safe r r' :
  optimize_technologies vs safe r = Some r' →
  step_at ["cv"; "sections"; "technologies"] r r'.
Proof.
  unfold optimize_technologies.
  destruct (dict_get "cv" r) as [cv|] eqn:Hcv; [|intros [= <-]; by left].
  destruct (py_contains "sections" cv) as [[]|]; cbn [mbind option_bind];
    [|intros [= <-]; by left|done].
  destruct (py_getitem cv "sections") as [sections|] eqn:Hsec; [|done].
  cbn [mbind option_bind].
  destruct (py_contains "technologies" sections) as [[]|];
    cbn [mbind option_bind]; [|intros [= <-]; by left|done].
  destruct (py_getitem sections "technologies") as [tech|] eqn:Htech; [|done].
  cbn [mbind option_bind].
  destruct (reorder_technologies tech safe) as [tech1|]; [|done].
  cbn [mbind option_bind].
  destruct (gate_loop vs "familiar" safe []) as [rk|]; [|done].
  cbn [mbind option_bind].
  destruct (add_relevant_skills tech1 rk) as [tech2|]; [|done].
  cbn [mbind option_bind].
  destruct (py_setitem sections "technologies" tech2) as [sections'|] eqn:Hs';
    [|done].
  cbn [mbind option_bind].
  destruct (py_setitem cv "sections" sections') as [cv'|] eqn:Hcv'; [|done].
  cbn [mbind option_bind]. intros [= <-]. right.
  exists tech2.
  cbn [set_path py_getitem mbind option_bind]. rewrite Hcv.
  cbn [mbind option_bind]. rewrite Hsec. cbn [mbind option_bind].
  rewrite Htech. cbn [mbind option_bind]. rewrite Hs'.
  cbn [mbind option_bind]. rewrite Hcv'. done.
Qed.

Lemma frame_refl r : frame r r.
Proof. by repeat split. Qed.

Lemma frame_trans r1 r2 r3 : frame r1 r2 → frame r2 r3 → frame r1 r3.
Proof.
  intros (Ha & Hb & Hc) (Ha' & Hb' & Hc'). repeat split.
  - intros p Hp. by rewrite Ha', Ha.
  - intros p Hp. by rewrite Hb', Hb.
  - intros q Hq Hnone. by apply Hc', Hc.
Qed.

Lemma touched_paths_independent q q' :
  q ∈ touched_paths → q' ∈ touched_paths → q ≠ q' →
  ¬ q `prefix_of` q' ∧ ¬ q' `prefix_of` q.
Proof.
  unfold touched_paths. rewrite !elem_of_cons, !elem_of_nil.
  intros [->|[->|[]]] [->|[->|[]]] Hne; try done;
    split; intros [k Hk]; discriminate.
Qed.

Lemma step_frame q r r' : q ∈ touched_paths → step_at q r r' → frame r r'.
Proof.
  intros Hq [->|(x & Hset)]; [apply frame_refl|]. repeat split.
  - intros p Hp. unfold untouched in Hp. rewrite Forall_forall in Hp.
    destruct (Hp q Hq) as [Hpq Hqp]. by apply (set_path_frame q x).
  - intros p Hp. apply (set_path_keys q x); [done|].
    revert Hq Hp. unfold touched_paths.
    rewrite !elem_of_cons, !elem_of_nil.
    intros [->|[->|[]]] [->|[->|[->|[]]]] [k Hk]; discriminate.
  - intros q' Hq' Hnone. rewrite <-Hnone.
    destruct (decide (q = q')) as [<-|Hne].
    { apply set_path_get in Hset as [y Hy]. congruence. }
    destruct (touched_paths_independent q q' Hq Hq' Hne).
    by apply (set_path_frame q x).
Qed.

Lemma score_details_total matched ds score :
  is_Some (score_details matched (VStr <$> ds) score).
Proof.
  revert score. induction ds as [|d ds IH]; intros score; [by eexists|].
  rewrite fmap_cons. cbn [score_details lower_of mbind option_bind]. apply IH.
Qed.

Lemma keyword_score_total matched tech_item :
  is_Some (item_details tech_item) → is_Some (keyword_score matched tech_item).
Proof.
  intros [ds Hds]. unfold keyword_score.
  rewrite (details_of_well_formed _ _ Hds). cbn [mbind option_bind].
  apply score_details_total.
Qed.

Lemma reorder_technologies_total items matched :
  well_formed_items items →
  ∃ out, reorder_technologies (VList items) matched = Some (VList out)
         ∧ out ≡ₚ items.
Proof.
  intros Hwf. unfold reorder_technologies.
  destruct items as [|it items]; [by exists []|].
  cbn [truthy length]. rewrite bool_decide_eq_false_2 by done. cbn [negb].
  destruct (mapM_is_Some_2
    (λ item, (λ score, (score, item)) <$> keyword_score matched item)
    (it :: items)) as [keyed Hkeyed].
  { eapply Forall_impl; [exact Hwf|]. intros x Hx. cbn.
    destruct (keyword_score_total matched x Hx) as [z ->]. by eexists. }
  rewrite Hkeyed. cbn [mbind option_bind]. eexists. split; [done|].
  rewrite sorted_desc_perm.
  apply mapM_Some in Hkeyed. clear Hwf.
  induction Hkeyed as [|x [z y] l k Hxy _ IH]; [done|].
  rewrite fmap_cons. cbn [snd].
  destruct (keyword_score matched x); [|done].
  cbn in Hxy. injection Hxy as _ <-. by rewrite IH.
Qed.

Lemma optimize_summary_total vs safe r :
  well_formed_resume r →
  ∃ r', optimize_summary vs safe r = Some r' ∧ well_formed_resume r'.
Proof.
  intros Hwf. assert (Hwf' := Hwf).
  unfold well_formed_resume in Hwf'. unfold optimize_summary.
  destruct (dict_get "cv" r) as [cv|] eqn:Hcv; [|by exists r].
  destruct cv as [| | | | |cv]; try done. destruct Hwf' as [Hsum Hsec].
  cbn [py_contains mbind option_bind]. unfold dict_has.
  destruct (dict_get "summary" cv) as [old|] eqn:Hold; [|by exists r].
  destruct old as [| | |s| |]; try done.
  destruct hierarchy_index as (_ & _ & H2 & _).
  destruct (gate_loop_total vs "proficient" 2 safe [] H2) as [ek ->].
  cbn [mbind option_bind py_getitem]. rewrite Hold.
  cbn [mbind option_bind py_setitem]. eexists. split; [done|].
  unfold well_formed_resume. rewrite dict_get_set_eq.
  rewrite dict_get_set_eq. by rewrite dict_get_set_ne.
Qed.

Lemma optimize_technologies_total vs safe r :
  well_formed_resume r → is_Some (optimize_technologies vs safe r).
Proof.
  unfold well_formed_resume, optimize_technologies.
  destruct (dict_get "cv" r) as [cv|] eqn:Hcv; [|by eexists].
  destruct cv as [| | | | |cv]; try done. intros [_ Hsec]. revert Hsec.
  cbn [py_contains mbind option_bind py_getitem]. unfold dict_has.
  destruct (dict_get "sections" cv) as [sections|] eqn:Hs; [|by eexists].
  destruct sections as [| | | | |sections]; try done.
  cbn [py_contains mbind option_bind py_getitem]. unfold dict_has.
  destruct (dict_get "technologies" sections) as [tech|] eqn:Ht; [|by eexists].
  destruct tech as [| | | |items|]; try done. intros Hsec.
  cbn [mbind option_bind].
  destruct (reorder_technologies_total items safe Hsec) as (out & -> & Hperm).
  cbn [mbind option_bind].
  destruct hierarchy_index as (_ & H1 & _ & _).
  destruct (gate_loop_total vs "familiar" 1 safe [] H1) as [rk ->].
  cbn [mbind option_bind].
  rewrite add_relevant_skills_shape
    by (unfold well_formed_items; by rewrite Hperm).
  by eexists.
Qed.

Lemma optimize_resume_total vs resume job_keywords :
  well_formed_resume resume →
  is_Some (optimize_resume vs resume job_keywords).
Proof.
  intros Hwf. unfold optimize_resume.
  destruct job_keywords as [|kc kws]; [by eexists|].
  destruct hierarchy_index as (_ & H1 & _ & _).
  unfold filter_safe_keywords.
  destruct (gate_loop_total vs "familiar" 1 (kc :: kws) [] H1) as [safe ->].
  cbn [mbind option_bind]. destruct safe as [|s safe]; [by eexists|].
  destruct (optimize_summary_total vs (s :: safe) resume Hwf) as (r' & -> & Hwf').
  cbn [mbind option_bind]. by apply optimize_technologies_total.
Qed.

Lemma optimize_resume_steps vs resume job_keywords out :
  optimize_resume vs resume job_keywords = Some out →
  ∃ r1, step_at ["cv"; "summary"] resume r1
        ∧ step_at ["cv"; "sections"; "technologies"] r1 out.
Proof.
  unfold optimize_resume.
  destruct job_keywords as [|kc kws];
    [intros [= <-]; exists resume; split; by left|].
  destruct (filter_safe_keywords vs (kc :: kws)) as [safe|]; [|done].
  cbn [mbind option_bind].
  destruct safe as [|s safe]; [intros [= <-]; exists resume; split; by left|].
  destruct (optimize_summary vs (s :: safe) resume) as [r1|] eqn:H1; [|done].
  cbn [mbind option_bind]. intros H2. exists r1. split.
  - by eapply optimize_summary_step.
  - by eapply optimize_technologies_step.
Qed.

Lemma step_at_lacking q r r' :
  get_path q (VDict r) = None → step_at q r r' → r' = r.
Proof.
  intros Hnone [->|[x Hset]]; [done|].
  apply set_path_get in Hset as [y Hy]. congruence.
Qed.

Lemma get_path_top k d : get_path [k] (VDict d) = dict_get k d.
Proof. cbn [get_path py_getitem]. by destruct (dict_get k d). Qed.

Lemma untouched_top k : k ≠ "cv" → untouched [k].
Proof.
  intros Hk. repeat constructor; intros [rest Heq]; simplify_eq/=.
Qed.

Lemma untouched_cv k : k ≠ "summary" → k ≠ "sections" → untouched ["cv"; k].
Proof.
  intros H1 H2. repeat constructor; intros [rest Heq]; simplify_eq/=.
Qed.

Lemma untouched_sections k :
  k ≠ "technologies" → untouched ["cv"; "sections"; k].
Proof.
  intros Hk. repeat constructor; intros [rest Heq]; simplify_eq/=.
Qed.

(** C8: whenever [optimize_resume] returns, its result agrees with the
    resume it was given on every top-level key other than [cv], on every
    field of [cv] other than [summary] and [sections], and on every entry
    of [cv.sections] other than [technologies]; more generally at every
    path that neither leads to nor lies below [cv.summary] or
    [cv.sections.technologies]. The top level, [cv] and [cv.sections]
    keep their keys in order. When the resume lacks the [cv.summary]
    path, the result is the resume with at most
    [cv.sections.technologies] assigned, and the path is still lacking;
    when it lacks the [cv.sections.technologies] path, the result is the
    resume with at most [cv.summary] assigned, and the path is still
    lacking; when it lacks both, the result is the resume. On every
    resume of the documented shape, with or without these two paths, the
    function does return. *)
Theorem optimize_resume_frame vs resume job_keywords :
  (well_formed_resume resume →
   is_Some (optimize_resume vs resume job_keywords))
  ∧ ∀ out,
      optimize_resume vs resume job_keywords = Some out →
      (∀ k, k ≠ "cv" → dict_get k out = dict_get k resume)
      ∧ (∀ k, k ≠ "summary" → k ≠ "sections" →
              get_path ["cv"; k] (VDict out)
              = get_path ["cv"; k] (VDict resume))
      ∧ (∀ k, k ≠ "technologies" →
              get_path ["cv"; "sections"; k] (VDict out)
              = get_path ["cv"; "sections"; k] (VDict resume))
      ∧ (∀ p, untouched p →
              get_path p (VDict out) = get_path p (VDict resume))
      ∧ (∀ p, p ∈ [[]; ["cv"]; ["cv"; "sections"]] →
              keys_at p (VDict out) = keys_at p (VDict resume))
      ∧ (get_path ["cv"; "summary"] (VDict resume) = None →
         get_path ["cv"; "summary"] (VDict out) = None
         ∧ step_at ["cv"; "sections"; "technologies"] resume out)
      ∧ (get_path ["cv"; "sections"; "technologies"] (VDict resume) = None →
         get_path ["cv"; "sections"; "technologies"] (VDict out) = None
         ∧ step_at ["cv"; "summary"] resume out)
      ∧ (get_path ["cv"; "summary"] (VDict resume) = None →
         get_path ["cv"; "sections"; "technologies"] (VDict resume) = None →
         out = resume).
Proof.
  split; [apply optimize_resume_total|].
  intros out H.
  destruct (optimize_resume_steps vs resume job_keywords out H)
    as (r1 & Hsum & Htech).
  assert (Hs : ["cv"; "summary"] ∈ touched_paths) by left.
  assert (Ht : ["cv"; "sections"; "technologies"] ∈ touched_paths)
    by (right; left).
  assert (Hframe : frame resume out).
  { eapply frame_trans; eapply step_frame; [exact Hs|exact Hsum|exact Ht|exact Htech]. }
  destruct Hframe as (Hpaths & Hkeys & Hlack).
  split; [intros k Hk; rewrite <-!get_path_top; by apply Hpaths, untouched_top|].
  split; [intros k H1 H2; by apply Hpaths, untouched_cv|].
  split; [intros k Hk; by apply Hpaths, untouched_sections|].
  split; [exact Hpaths|]. split; [exact Hkeys|].
  split; [|split].
  - intros Hnone. split; [by apply Hlack|].
    by rewrite (step_at_lacking _ _ _ Hnone Hsum) in Htech.
  - intros Hnone. split; [by apply Hlack|].
    assert (Hnone1 : get_path ["cv"; "sections"; "technologies"] (VDict r1) = None).
    { destruct (step_frame _ _ _ Hs Hsum) as (_ & _ & Hl). by apply Hl. }
    by rewrite (step_at_lacking _ _ _ Hnone1 Htech).
  - intros Hn1 Hn2.
    rewrite (step_at_lacking _ _ _ Hn1 Hsum) in Htech.
    by apply (step_at_lacking _ _ _ Hn2 Htech).
Qed.

Lemma optimize_resume_frame_witness :
  well_formed_resume full_resume
  ∧ is_Some (optimize_resume python_skills full_resume
               [("python", 2); ("docker", 1)])
  ∧ optimize_resume python_skills full_resume [("python", 2); ("docker", 1)]
    = Some optimized_full_resume
  ∧ dict_get "design" optimized_full_resume = dict_get "design" full_resume
  ∧ get_path ["cv"; "location"] (VDict optimized_full_resume)
    = get_path ["cv"; "location"] (VDict full_resume)
  ∧ get_path ["cv"; "sections"; "education"] (VDict optimized_full_resume)
    = get_path ["cv"; "sections"; "education"] (VDict full_resume).
Proof.
  assert (Hwf : well_formed_resume full_resume).
  { vm_compute. repeat constructor; eexists; reflexivity. }
  assert (Hout :
    optimize_resume python_skills full_resume [("python", 2); ("docker", 1)]
    = Some optimized_full_resume) by (vm_compute; reflexivity).
  destruct (optimize_resume_frame python_skills full_resume
              [("python", 2); ("docker", 1)]) as [Htotal Hframe].
  destruct (Hframe _ Hout) as (Htop & Hcv & Hsections & _).
  split; [exact Hwf|]. split; [exact (Htotal Hwf)|]. split; [exact Hout|].
  split; [by apply Htop|]. split; [by apply Hcv|]. by apply Hsections.
Defined.

(** * Further properties of the code *)

(** ** Dictionaries: keys *)

Lemma dict_get_None {V} (k : string) (d : list (string * V)) :
  dict_get k d = None ↔ k ∉ d.*1.
Proof.
  induction d as [|[k' v'] d IH]; cbn [dict_get fmap list_fmap fst].
  - split; [intros _; apply not_elem_of_nil|done].
  - rewrite not_elem_of_cons. destruct (decide (k = k')) as [->|Hne].
    + split; [done|]. by intros [? _].
    + rewrite IH. tauto.
Qed.

Lemma dict_get_elem {V} (k : string) (v : V) (d : list (string * V)) :
  NoDup d.*1 → dict_get k d = Some v ↔ (k, v) ∈ d.
Proof.
  induction d as [|[k' v'] d IH]; cbn [dict_get fmap list_fmap fst].
  - intros _. split; [done|]. by intros ?%elem_of_nil.
  - intros [Hk' Hd]%NoDup_cons. rewrite elem_of_cons.
    destruct (decide (k = k')) as [->|Hne].
    + split; [intros [= ->]; by left|].
      intros [[= ->]|Hin]; [done|].
      destruct Hk'. apply list_elem_of_fmap. by exists (k', v).
    + rewrite (IH Hd). split; [by right|]. by intros [[= -> _]|?].
Qed.

Lemma dict_set_fresh {V} (k : string) (v : V) (d : list (string * V)) :
  k ∉ d.*1 → dict_set k v d = d ++ [(k, v)].
Proof.
  induction d as [|[k' v'] d IH]; cbn [dict_set fmap list_fmap fst]; [done|].
  rewrite not_elem_of_cons. intros [Hne Hd].
  rewrite decide_False by done. by rewrite IH.
Qed.

Lemma dict_set_key_elem {V} (k k0 : string) (v : V) (d : list (string * V)) :
  k0 ∈ (dict_set k v d).*1 → k0 = k ∨ k0 ∈ d.*1.
Proof.
  induction d as [|[k' v'] d IH]; cbn [dict_set fmap list_fmap fst].
  - rewrite elem_of_cons. intros [->|?]; [by left|by right].
  - destruct (decide (k = k')) as [->|Hne]; cbn [fmap list_fmap fst];
      rewrite !elem_of_cons.
    + intros [->|?]; [by left|right; by right].
    + intros [->|Hin]; [right; by left|].
      destruct (IH Hin) as [->|?]; [by left|right; by right].
Qed.

Lemma dict_set_NoDup {V} (k : string) (v : V) (d : list (string * V)) :
  NoDup d.*1 → NoDup (dict_set k v d).*1.
Proof.
  induction d as [|[k' v'] d IH]; cbn [dict_set fmap list_fmap fst].
  - intros _. apply NoDup_singleton.
  - intros [Hk' Hd]%NoDup_cons.
    destruct (decide (k = k')) as [->|Hne]; cbn [fmap list_fmap fst].
    + by apply NoDup_cons.
    + apply NoDup_cons. split; [|by apply IH].
      intros [->|Hin]%dict_set_key_elem; done.
Qed.

(** Two dictionaries with the same lookups have the same entries. *)
Lemma dict_ext_perm {V} (d1 d2 : list (string * V)) :
  NoDup d1.*1 → NoDup d2.*1 →
  (∀ k, dict_get k d1 = dict_get k d2) → d1 ≡ₚ d2.
Proof.
  intros H1 H2 Hget. apply NoDup_Permutation.
  - by apply (NoDup_fmap_1 fst).
  - by apply (NoDup_fmap_1 fst).
  - intros [k v]. by rewrite <-!dict_get_elem, Hget.
Qed.

(** ** Extraction: what the map holds *)

Lemma count_loop_lookup count vocab acc k :
  dict_get k (foldl (count_step count) acc vocab)
  = if bool_decide (k ∈ vocab) && (0 <? count k)%nat
    then Some (Z.of_nat (count k)) else dict_get k acc.
Proof.
  revert acc. induction vocab as [|kw vocab IH]; intros acc; [done|].
  cbn [foldl]. rewrite IH. unfold count_step.
  destruct (decide (k = kw)) as [->|Hne].
  - rewrite (bool_decide_eq_true_2 (kw ∈ kw :: vocab)) by left.
    destruct (0 <? count kw)%nat eqn:Hpos.
    + rewrite dict_get_set_eq. by destruct (bool_decide (kw ∈ vocab)).
    + by rewrite !andb_false_r.
  - assert (Hdec : bool_decide (k ∈ kw :: vocab) = bool_decide (k ∈ vocab)).
    { apply bool_decide_ext. rewrite elem_of_cons. tauto. }
    rewrite Hdec.
    destruct (0 <? count kw)%nat; [by rewrite dict_get_set_ne|done].
Qed.

Lemma count_loop_NoDup count vocab acc :
  NoDup acc.*1 → NoDup (foldl (count_step count) acc vocab).*1.
Proof.
  revert acc. induction vocab as [|kw vocab IH]; intros acc Hacc; [done|].
  cbn [foldl]. apply IH. unfold count_step.
  destruct (0 <? count kw)%nat; [by apply dict_set_NoDup|done].
Qed.

Lemma extract_keywords_over_lookup vocab text k :
  dict_get k (extract_keywords_over vocab text)
  = if bool_decide (k ∈ vocab) && (0 <? term_count text k)%nat
    then Some (Z.of_nat (term_count text k)) else None.
Proof.
  unfold extract_keywords_over, count_keywords, term_count.
  apply (count_loop_lookup
           (keyword_count (normalize text)
              (Re.findall Re.match_token (normalize text)))).
Qed.

Lemma extract_keywords_over_NoDup vocab text :
  NoDup (extract_keywords_over vocab text).*1.
Proof.
  unfold extract_keywords_over, count_keywords.
  apply (count_loop_NoDup
           (keyword_count (normalize text)
              (Re.findall Re.match_token (normalize text)))).
  constructor.
Qed.

(** [extract_keywords] holds a term exactly when the term is in the
    vocabulary and occurs in the normalized text, and then holds the
    number of its occurrences, which is at least 1; no term is held
    twice. *)
Theorem extract_keywords_entries vocab text :
  (∀ k c,
     (k, c) ∈ extract_keywords_over vocab text
     ↔ k ∈ vocab ∧ 0 < c ∧ c = Z.of_nat (term_count text k))
  ∧ NoDup (extract_keywords_over vocab text).*1.
Proof.
  split; [|apply extract_keywords_over_NoDup].
  intros k c.
  rewrite <-dict_get_elem by apply extract_keywords_over_NoDup.
  rewrite extract_keywords_over_lookup.
  destruct (bool_decide (k ∈ vocab)) eqn:Hin; cbn [andb].
  - apply bool_decide_eq_true in Hin.
    destruct (0 <? term_count text k)%nat eqn:Hpos.
    + apply Nat.ltb_lt in Hpos. split.
      * intros [= <-]. repeat split; [done|lia].
      * by intros (_ & _ & ->).
    + apply Nat.ltb_ge in Hpos. split; [done|]. intros (_ & ? & ->). lia.
  - apply bool_decide_eq_false in Hin. split; [done|]. by intros [? _].
Qed.

(** The order in which the vocabulary set is iterated changes the order
    of the entries of the result and nothing else. *)
Theorem extract_keywords_order_independent vocab vocab' text :
  vocab ≡ₚ vocab' →
  extract_keywords_over vocab text ≡ₚ extract_keywords_over vocab' text.
Proof.
  intros Hperm.
  apply dict_ext_perm; try apply extract_keywords_over_NoDup.
  intros k. rewrite !extract_keywords_over_lookup.
  assert (Hdec : bool_decide (k ∈ vocab) = bool_decide (k ∈ vocab'))
    by (apply bool_decide_ext; by rewrite Hperm).
  by rewrite Hdec.
Qed.

Lemma extract_keywords_order_independent_witness :
  ["go"; "rust"; "python"] ≡ₚ ["python"; "go"; "rust"]
  ∧ extract_keywords_over ["go"; "rust"; "python"] "Rust, Go and Python; go!"
    ≡ₚ extract_keywords_over ["python"; "go"; "rust"]
         "Rust, Go and Python; go!".
Proof.
  assert (H : ["go"; "rust"; "python"] ≡ₚ ["python"; "go"; "rust"]).
  { change (["go"; "rust"] ++ ["python"] ≡ₚ ["python"] ++ ["go"; "rust"]).
    apply Permutation_app_comm. }
  split; [exact H|].
  exact (extract_keywords_order_independent _ _ _ H).
Defined.

(** ** Tokens begin and end with a word character *)

Lemma token_is_word_or_mark c :
  Char.is_token c = false → Char.is_word c = false.
Proof. each_char c; vm_compute; congruence. Qed.

Lemma token_span_length s : (Re.token_span s ≤ String.length s)%nat.
Proof.
  induction s as [|c s IH]; cbn [Re.token_span String.length]; [lia|].
  destruct (Char.is_token c); lia.
Qed.

Lemma str_last_cons c s :
  str_last (String c s) = match str_last s with Some d => Some d | None => Some c end.
Proof.
  revert c. induction s as [|d s IH]; intros c; [done|].
  change (str_last (String c (String d s))) with (str_last (String d s)).
  rewrite (IH d). by destruct (str_last s).
Qed.

Lemma str_take_cons n c s : str_take (S n) (String c s) = String c (str_take n s).
Proof. reflexivity. Qed.

Lemma str_last_take_None n s :
  str_last (str_take (S n) s) = None → s = "".
Proof.
  destruct s as [|c s]; [done|]. rewrite str_take_cons, str_last_cons.
  by destruct (str_last (str_take n s)).
Qed.

(** [\b] after [S m] characters of [c :: s] is [\b] after [m] characters
    of [s], seen with [c] in front. *)
Lemma boundary_at_cons prev c s m :
  (m ≤ String.length s)%nat →
  Re.boundary_at prev (String c s) (S m) = Re.boundary_at (Some c) s m.
Proof.
  intros Hm. unfold Re.boundary_at. cbn [str_drop]. f_equal.
  destruct m as [|m]; [done|].
  rewrite str_take_cons, str_last_cons.
  destruct (str_last (str_take (S m) s)) eqn:Hl; [done|].
  apply str_last_take_None in Hl. subst s. cbn [String.length] in Hm. lia.
Qed.

Lemma backtrack_cons prev c s n :
  (n ≤ String.length s)%nat →
  Re.backtrack prev (String c s) (S n) = S <$> longest_boundary (Some c) s n.
Proof.
  unfold longest_boundary. induction n as [|n IH]; intros Hn.
  - cbn [Re.backtrack]. rewrite boundary_at_cons by done.
    by destruct (Re.boundary_at (Some c) s 0).
  - change (Re.backtrack prev (String c s) (S (S n)))
      with (if Re.boundary_at prev (String c s) (S (S n))
            then Some (S (S n)) else Re.backtrack prev (String c s) (S n)).
    rewrite boundary_at_cons by done. cbn [Re.backtrack].
    destruct (Re.boundary_at (Some c) s (S n)); [done|].
    apply IH. lia.
Qed.

Lemma longest_nil prev :
  longest_boundary prev "" (Re.token_span "")
  = if Re.word_opt prev then Some O else None.
Proof.
  unfold longest_boundary, Re.boundary_at, Re.boundary.
  cbn. by destruct (Re.word_opt prev).
Qed.

Lemma longest_cons_token prev c s :
  Char.is_token c = true →
  longest_boundary prev (String c s) (Re.token_span (String c s))
  = match longest_boundary (Some c) s (Re.token_span s) with
    | Some m => Some (S m)
    | None => if xorb (Re.word_opt prev) (Char.is_word c) then Some O else None
    end.
Proof.
  intros Hc. cbn [Re.token_span]. rewrite Hc.
  unfold longest_boundary at 1.
  rewrite backtrack_cons by apply token_span_length.
  by destruct (longest_boundary (Some c) s (Re.token_span s)).
Qed.

Lemma longest_cons_other prev c s :
  Char.is_token c = false →
  longest_boundary prev (String c s) (Re.token_span (String c s))
  = if Re.word_opt prev then Some O else None.
Proof.
  intros Hc. cbn [Re.token_span]. rewrite Hc.
  unfold longest_boundary, Re.boundary_at, Re.boundary.
  cbn [Re.backtrack str_drop str_head Re.word_opt].
  rewrite (token_is_word_or_mark c Hc). by destruct (Re.word_opt prev).
Qed.

(** Where the greedy match ends: after a word character, with no word
    character left in what the repetition could still consume. *)
Lemma longest_Some prev s m :
  longest_boundary prev s (Re.token_span s) = Some m →
  Re.word_opt (match m with
               | O => prev
               | S _ => str_last (str_take m s)
               end) = true
  ∧ no_word_span (str_drop m s) = true.
Proof.
  revert prev m. induction s as [|c s IH]; intros prev m.
  { rewrite longest_nil. destruct (Re.word_opt prev) eqn:Hp; [|done].
    by intros [= <-]. }
  destruct (Char.is_token c) eqn:Hc.
  - rewrite longest_cons_token by done.
    destruct (longest_boundary (Some c) s (Re.token_span s)) as [m'|] eqn:Hl.
    + intros [= <-]. destruct (IH _ _ Hl) as [Hw Hn]. split; [|exact Hn].
      rewrite str_take_cons, str_last_cons.
      destruct m' as [|m']; [done|].
      by destruct (str_last (str_take (S m') s)).
    + assert (Hnone : Re.word_opt (Some c) = false ∧ no_word_span s = true).
      { clear IH. revert Hl. generalize (Some c). clear.
        induction s as [|d s IH]; intros p.
        - rewrite longest_nil. by destruct (Re.word_opt p).
        - destruct (Char.is_token d) eqn:Hd.
          + rewrite longest_cons_token by done.
            destruct (longest_boundary (Some d) s (Re.token_span s)) eqn:Hl;
              [done|].
            destruct (IH _ Hl) as [Hw Hn]. cbn [Re.word_opt] in Hw.
            rewrite Hw. destruct (Re.word_opt p); [done|]. intros _.
            cbn [no_word_span]. by rewrite Hd, Hw, Hn.
          + rewrite longest_cons_other by done.
            destruct (Re.word_opt p); [done|]. intros _.
            cbn [no_word_span]. by rewrite Hd. }
      destruct Hnone as [Hw Hn]. cbn [Re.word_opt] in Hw. rewrite Hw.
      destruct (Re.word_opt prev) eqn:Hp; [|done]. intros [= <-].
      split; [done|]. cbn [str_drop no_word_span]. by rewrite Hc, Hw, Hn.
  - rewrite longest_cons_other by done.
    destruct (Re.word_opt prev) eqn:Hp; [|done]. intros [= <-].
    split; [done|]. cbn [str_drop no_word_span]. by rewrite Hc.
Qed.

Lemma longest_None prev s :
  longest_boundary prev s (Re.token_span s) = None →
  Re.word_opt prev = false ∧ no_word_span s = true.
Proof.
  revert prev. induction s as [|c s IH]; intros prev.
  { rewrite longest_nil. by destruct (Re.word_opt prev). }
  destruct (Char.is_token c) eqn:Hc.
  - rewrite longest_cons_token by done.
    destruct (longest_boundary (Some c) s (Re.token_span s)) eqn:Hl; [done|].
    destruct (IH _ Hl) as [Hw Hn]. cbn [Re.word_opt] in Hw. rewrite Hw.
    destruct (Re.word_opt prev); [done|]. intros _.
    cbn [no_word_span]. by rewrite Hc, Hw, Hn.
  - rewrite longest_cons_other by done.
    destruct (Re.word_opt prev); [done|]. intros _.
    cbn [no_word_span]. by rewrite Hc.
Qed.

Lemma longest_no_word prev s :
  no_word_span s = true →
  longest_boundary prev s (Re.token_span s)
  = if Re.word_opt prev then Some O else None.
Proof.
  revert prev. induction s as [|c s IH]; intros prev Hn.
  { apply longest_nil. }
  destruct (Char.is_token c) eqn:Hc.
  - cbn [no_word_span] in Hn. rewrite Hc in Hn.
    apply andb_true_iff in Hn as [Hw Hn]. apply negb_true_iff in Hw.
    rewrite longest_cons_token, (IH _ Hn) by done.
    cbn [Re.word_opt]. rewrite Hw. by destruct (Re.word_opt prev).
  - by apply longest_cons_other.
Qed.

Lemma match_token_longest prev s n :
  Re.match_token prev s = Some (S n) →
  longest_boundary prev s (Re.token_span s) = Some (S n).
Proof.
  unfold Re.match_token, longest_boundary.
  destruct (Re.boundary_at prev s 0); [|done]. by intros ->.
Qed.

Lemma backtrack_positive prev s n : Re.backtrack prev s n ≠ Some O.
Proof.
  induction n as [|n IH]; cbn [Re.backtrack]; [done|].
  by destruct (Re.boundary_at prev s (S n)).
Qed.

(** A match attempt in front of a word character, not preceded by one,
    succeeds. *)
Lemma match_token_at_word prev c s :
  Re.word_opt prev = false → Char.is_word c = true →
  ∃ n, Re.match_token prev (String c s) = Some (S n).
Proof.
  intros Hp Hc. unfold Re.match_token.
  assert (Hb : Re.boundary_at prev (String c s) 0 = true).
  { unfold Re.boundary_at, Re.boundary. cbn. by rewrite Hp, Hc. }
  rewrite Hb.
  destruct (Re.backtrack prev (String c s) (Re.token_span (String c s)))
    as [[|n]|] eqn:Hbt.
  - by apply backtrack_positive in Hbt.
  - by exists n.
  - assert (Hl : longest_boundary prev (String c s)
                   (Re.token_span (String c s)) = Some O).
    { unfold longest_boundary. by rewrite Hbt, Hb. }
    apply longest_Some in Hl as [Hw _]. congruence.
Qed.

Lemma scan_state_step prev c k s :
  scan_state prev (S k) (String c s) → scan_state (Some c) k s.
Proof.
  unfold scan_state. rewrite str_take_cons, str_last_cons.
  cbn [str_drop String.length]. intros (Hlen & Hw & Hn).
  destruct k as [|k].
  - intros _. by destruct s.
  - split; [lia|]. split; [|done].
    destruct (str_last (str_take (S k) s)) eqn:Hl; [done|].
    apply str_last_take_None in Hl. subst s. cbn [String.length] in Hlen. lia.
Qed.

Lemma scan_word_ended prev skip s :
  scan_state prev skip s →
  Forall (λ w, word_ended w = true) (Re.scan Re.match_token prev skip s).
Proof.
  revert prev skip. induction s as [|c s IH]; intros prev skip Hst;
    cbn [Re.scan]; [constructor|].
  destruct skip as [|k].
  2:{ apply IH. by apply (scan_state_step prev). }
  cbn [scan_state] in Hst.
  destruct (Re.match_token prev (String c s)) as [[|n]|] eqn:Hm.
  - (* a match of length 0 never happens *)
    unfold Re.match_token in Hm.
    destruct (Re.boundary_at prev (String c s) 0); [|done].
    by apply backtrack_positive in Hm.
  - pose proof (match_token_longest _ _ _ Hm) as Hl.
    destruct (longest_Some _ _ _ Hl) as [Hlast Hrest].
    assert (Hprev : Re.word_opt prev = false).
    { destruct (Re.word_opt prev) eqn:Hp; [|done].
      rewrite (longest_no_word prev _ (Hst eq_refl)), Hp in Hl. done. }
    assert (Hc : Char.is_word c = true).
    { unfold Re.match_token in Hm.
      destruct (Re.boundary_at prev (String c s) 0) eqn:Hb; [|done].
      unfold Re.boundary_at, Re.boundary in Hb. cbn in Hb.
      rewrite Hprev in Hb. exact Hb. }
    constructor.
    + unfold word_ended. rewrite (str_take_cons n c s) at 1.
      cbn [str_head Re.word_opt]. rewrite Hc. exact Hlast.
    + apply IH. apply (scan_state_step prev). split; [|split; done].
      apply match_token_le in Hm. pose proof (token_span_length (String c s)).
      lia.
  - apply IH. cbn [scan_state]. cbn [Re.word_opt]. intros Hc.
    destruct (Re.word_opt prev) eqn:Hp.
    + specialize (Hst eq_refl). cbn [no_word_span] in Hst.
      destruct (Char.is_token c) eqn:Ht.
      * rewrite Hc in Hst. done.
      * by rewrite (token_is_word_or_mark c Ht) in Hc.
    + destruct (match_token_at_word prev c s Hp Hc) as [n Hn]. congruence.
Qed.

(** Every token [re.findall(r'\b[\w.-]+\b', text)] returns is made of
    word characters, dots and hyphens, and begins and ends with a word
    character: the dots and hyphens around a word are never part of it. *)
Theorem tokens_trimmed text :
  Forall
    (λ w, all_chars Char.is_token w = true ∧ word_ended w = true)
    (Re.findall Re.match_token text).
Proof.
  apply Forall_and. split; [apply scan_tokens|].
  apply scan_word_ended. by intros ?.
Qed.

(** ** The gate and the reported level *)

Lemma unknown_index : list_index "unknown" skill_hierarchy = None.
Proof. vm_compute. reflexivity. Qed.

(** A keyword validates at a minimum level exactly when it is not in
    [never_add] and the level [get_skill_level] reports for it is that
    level or a higher one. *)
Theorem validate_keyword_iff_level vs keyword level i :
  list_index level skill_hierarchy = Some i →
  validate_keyword vs keyword level = Some true
  ↔ registered vs "never_add" (lower keyword) = false
    ∧ ∃ j, list_index (get_skill_level vs keyword) skill_hierarchy = Some j
           ∧ (i ≤ j)%nat.
Proof.
  intros Hi. destruct hierarchy_index as (H0 & H1 & H2 & H3).
  pose proof unknown_index as Hu.
  destruct (registered vs "never_add" (lower keyword)) eqn:Hn.
  { unfold validate_keyword. rewrite Hn. split; [done|]. by intros [? _]. }
  rewrite (validate_keyword_allowed vs keyword Hn level i Hi).
  unfold get_skill_level. cbn [first_level].
  apply list_index_hierarchy in Hi.
  destruct Hi as [[-> ->]|[[-> ->]|[[-> ->]|[-> ->]]]];
    cbn [drop skill_hierarchy existsb];
    destruct (registered vs "expert" (lower keyword));
    destruct (registered vs "proficient" (lower keyword));
    destruct (registered vs "familiar" (lower keyword));
    destruct (registered vs "learning" (lower keyword));
    cbn [orb];
    match goal with
    | |- Some true = Some true ↔ _ =>
        split; [intros _|done]; split; [done|]; eexists;
        (split; [first [exact H3|exact H2|exact H1|exact H0]|lia])
    | |- Some false = Some true ↔ _ =>
        split; [done|]; intros [_ (j & Hj & Hle)];
        rewrite ?H0, ?H1, ?H2, ?H3, ?Hu in Hj; simplify_eq; lia
    end.
Qed.

Lemma validate_keyword_iff_level_witness :
  list_index "proficient" skill_hierarchy = Some 2%nat
  ∧ validate_keyword mixed_skills "RUST" "proficient" = Some true
  ∧ get_skill_level mixed_skills "RUST" = "expert".
Proof.
  assert (Hi : list_index "proficient" skill_hierarchy = Some 2%nat)
    by (vm_compute; reflexivity).
  split; [exact Hi|]. split; [|vm_compute; reflexivity].
  apply (validate_keyword_iff_level mixed_skills "RUST" "proficient" 2 Hi).
  split; [vm_compute; reflexivity|].
  exists 3%nat. split; [vm_compute; reflexivity|lia].
Defined.

(** [validate_keyword] raises (the [ValueError] of [list.index]) exactly
    when the level is none of the four and the keyword is not in
    [never_add]: a keyword in [never_add] is rejected before the level
    is looked at. *)
Theorem validate_keyword_raises vs keyword level :
  validate_keyword vs keyword level = None
  ↔ registered vs "never_add" (lower keyword) = false
    ∧ level ∉ skill_hierarchy.
Proof.
  unfold validate_keyword.
  destruct (registered vs "never_add" (lower keyword)).
  { split; [done|]. by intros [? _]. }
  assert (Hidx : list_index level skill_hierarchy = None
                 ↔ level ∉ skill_hierarchy).
  { generalize skill_hierarchy. intros l.
    induction l as [|y l IH]; cbn [list_index].
    - split; [intros _; apply not_elem_of_nil|done].
    - rewrite not_elem_of_cons. destruct (decide (level = y)) as [->|Hne].
      + split; [done|]. by intros [? _].
      + destruct (list_index level l); cbn; [|tauto].
        split; [done|]. intros [_ Hl]. by apply IH in Hl. }
  destruct (list_index level skill_hierarchy) eqn:Hl; cbn [mbind option_bind].
  - split; [done|]. intros [_ Hnot]. by apply Hidx in Hnot.
  - split; [|done]. intros _. split; [done|]. by apply Hidx.
Qed.

(** ** Filtering a keyword map *)

Lemma gate_loop_filter vs level i keywords acc :
  list_index level skill_hierarchy = Some i →
  NoDup (acc.*1 ++ keywords.*1) →
  gate_loop vs level keywords acc
  = Some (acc ++ List.filter (λ kc, validated vs level kc.1) keywords).
Proof.
  intros Hi. revert acc.
  induction keywords as [|[k c] keywords IH]; intros acc Hnd.
  { cbn. by rewrite app_nil_r. }
  cbn [gate_loop List.filter fst]. unfold validated at 1.
  destruct (validate_keyword_total vs k level i Hi) as [b Hb]. rewrite Hb.
  cbn [mbind option_bind].
  rewrite fmap_cons in Hnd. cbn [fst] in Hnd.
  apply NoDup_app in Hnd as (Hacc & Hdisj & Hkws).
  apply NoDup_cons in Hkws as [Hk Hkws].
  destruct b.
  - rewrite bool_decide_eq_true_2 by done.
    rewrite dict_set_fresh by (intros Hin; apply (Hdisj k Hin); left).
    rewrite IH.
    + by rewrite <-app_assoc.
    + rewrite fmap_app. cbn [fmap list_fmap fst]. rewrite <-app_assoc.
      apply NoDup_app. split; [done|]. split.
      * intros x Hx. apply Hdisj in Hx. exact Hx.
      * by apply NoDup_cons.
  - rewrite bool_decide_eq_false_2 by done. apply IH.
    apply NoDup_app. split; [done|]. split; [|done].
    intros x Hx Hin. apply (Hdisj x Hx). by right.
Qed.

Lemma filter_keys_NoDup {V} (f : string * V → bool) (d : list (string * V)) :
  NoDup d.*1 → NoDup (List.filter f d).*1.
Proof.
  induction d as [|kv d IH]; cbn [List.filter fmap list_fmap]; [done|].
  intros [Hk Hd]%NoDup_cons. destruct (f kv); [|by apply IH].
  cbn [fmap list_fmap]. apply NoDup_cons. split; [|by apply IH].
  intros Hin. apply Hk. apply list_elem_of_fmap in Hin as (x & -> & Hx).
  apply list_elem_of_fmap. exists x. split; [done|].
  apply list_elem_of_In, filter_In in Hx as [Hx _]. by apply list_elem_of_In.
Qed.

Lemma filter_filter_same {A} (f : A → bool) (l : list A) :
  List.filter f (List.filter f l) = List.filter f l.
Proof.
  induction l as [|x l IH]; [done|]. cbn [List.filter].
  destruct (f x) eqn:Hx; [|done]. cbn [List.filter]. by rewrite Hx, IH.
Qed.

(** On a keyword map, whose keys are distinct, [filter_safe_keywords]
    never raises and returns the entries whose keyword validates at
    [familiar], in their order and with their counts. *)
Theorem filter_safe_keywords_filter vs keywords :
  NoDup keywords.*1 →
  filter_safe_keywords vs keywords
  = Some (List.filter (λ kc, validated vs "familiar" kc.1) keywords).
Proof.
  intros Hnd. destruct hierarchy_index as (_ & H1 & _ & _).
  unfold filter_safe_keywords.
  by rewrite (gate_loop_filter vs "familiar" 1 keywords [] H1).
Qed.

Lemma filter_safe_keywords_filter_witness :
  NoDup [("rust", 3); ("php", 2); ("go", 1); ("java", 1)].*1
  ∧ filter_safe_keywords mixed_skills
      [("rust", 3); ("php", 2); ("go", 1); ("java", 1)]
    = Some [("rust", 3); ("go", 1)].
Proof.
  assert (H : NoDup [("rust", 3); ("php", 2); ("go", 1); ("java", 1)].*1)
    by (apply (bool_decide_unpack _); vm_compute; exact I).
  split; [exact H|].
  refine (eq_trans (filter_safe_keywords_filter mixed_skills _ H) _).
  vm_compute. reflexivity.
Defined.

(** In [optimize_resume] the second filtering of the safe keywords at
    [familiar] changes nothing: [relevant_keywords] is [safe_keywords];
    and [expert_keywords] holds the safe keywords that validate at
    [proficient], in their order. *)
Theorem safe_keywords_refiltered vs job_keywords safe :
  NoDup job_keywords.*1 →
  filter_safe_keywords vs job_keywords = Some safe →
  gate_loop vs "familiar" safe [] = Some safe
  ∧ gate_loop vs "proficient" safe []
    = Some (List.filter (λ kc, validated vs "proficient" kc.1) safe).
Proof.
  intros Hnd. destruct hierarchy_index as (_ & H1 & H2 & _).
  unfold filter_safe_keywords.
  rewrite (gate_loop_filter vs "familiar" 1 job_keywords [] H1) by done.
  cbn [app]. intros [= <-].
  assert (Hsafe : NoDup
    (List.filter (λ kc : string * Z, validated vs "familiar" kc.1)
       job_keywords).*1) by by apply filter_keys_NoDup.
  split.
  - rewrite (gate_loop_filter vs "familiar" 1 _ [] H1) by done.
    cbn [app]. by rewrite filter_filter_same.
  - by rewrite (gate_loop_filter vs "proficient" 2 _ [] H2).
Qed.

Lemma safe_keywords_refiltered_witness :
  NoDup [("rust", 3); ("php", 2); ("go", 1); ("java", 1)].*1
  ∧ filter_safe_keywords mixed_skills
      [("rust", 3); ("php", 2); ("go", 1); ("java", 1)]
    = Some [("rust", 3); ("go", 1)]
  ∧ gate_loop mixed_skills "familiar" [("rust", 3); ("go", 1)] []
    = Some [("rust", 3); ("go", 1)].
Proof.
  assert (H : NoDup [("rust", 3); ("php", 2); ("go", 1); ("java", 1)].*1)
    by (apply (bool_decide_unpack _); vm_compute; exact I).
  assert (Hs : filter_safe_keywords mixed_skills
                 [("rust", 3); ("php", 2); ("go", 1); ("java", 1)]
               = Some [("rust", 3); ("go", 1)]) by (vm_compute; reflexivity).
  split; [exact H|]. split; [exact Hs|].
  exact (proj1 (safe_keywords_refiltered mixed_skills _ _ H Hs)).
Defined.

(** ** A registry without skills *)

Lemma existsb_all_false {A} (f : A → bool) (l : list A) :
  (∀ x, f x = false) → existsb f l = false.
Proof. intros Hf. induction l as [|x l IH]; [done|]. cbn. by rewrite Hf, IH. Qed.

Lemma registered_empty vs level keyword_lower :
  skills_at vs level = [] → registered vs level keyword_lower = false.
Proof.
  intros Hempty. unfold registered. rewrite Hempty.
  apply bool_decide_eq_false_2. cbn. apply not_elem_of_nil.
Qed.

Lemma default_skills_empty level :
  skills_at default_validated_skills level = [].
Proof.
  unfold skills_at, default_validated_skills.
  destruct (_ !! level) as [l|] eqn:Hl; [|done].
  rewrite !lookup_insert_Some, lookup_singleton_Some in Hl. naive_solver.
Qed.

Lemma optimize_resume_rejected vs resume job_keywords :
  Forall (λ kc, validate_keyword vs kc.1 "familiar" = Some false) job_keywords →
  optimize_resume vs resume job_keywords = Some resume.
Proof.
  intros Hall. unfold optimize_resume, filter_safe_keywords.
  rewrite gate_loop_rejects by done. by destruct job_keywords.
Qed.

(** With a registry all of whose lists are empty, as the one
    [load_validated_skills] falls back to, no keyword validates at any
    level, every keyword is reported [unknown], and [optimize_resume]
    returns the resume it was given, whatever the job keywords. *)
Theorem empty_registry_noop vs :
  (∀ level, skills_at vs level = []) →
  (∀ keyword level,
     level ∈ skill_hierarchy →
     validate_keyword vs keyword level = Some false)
  ∧ (∀ keyword, get_skill_level vs keyword = "unknown")
  ∧ (∀ resume job_keywords,
       optimize_resume vs resume job_keywords = Some resume).
Proof.
  intros Hempty.
  assert (Hreg : ∀ level k, registered vs level k = false)
    by (intros level k; by apply registered_empty).
  assert (Hval : ∀ keyword level i,
    list_index level skill_hierarchy = Some i →
    validate_keyword vs keyword level = Some false).
  { intros keyword level i Hi.
    rewrite (validate_keyword_allowed vs keyword (Hreg _ _) level i Hi).
    f_equal. apply existsb_all_false. intros l. apply Hreg. }
  destruct hierarchy_index as (H0 & H1 & H2 & H3).
  split; [|split].
  - intros keyword level Hin. unfold skill_hierarchy in Hin.
    rewrite !elem_of_cons, elem_of_nil in Hin.
    destruct Hin as [->|[->|[->|[->|[]]]]]; eapply Hval; eassumption.
  - intros keyword. unfold get_skill_level. cbn [first_level].
    by rewrite !Hreg.
  - intros resume job_keywords. apply optimize_resume_rejected.
    apply Forall_forall. intros kc _. by apply (Hval _ _ 1%nat).
Qed.

Lemma empty_registry_noop_witness :
  (∀ level, skills_at default_validated_skills level = [])
  ∧ optimize_resume default_validated_skills full_resume
      [("python", 2); ("docker", 1)]
    = Some full_resume.
Proof.
  split; [exact default_skills_empty|].
  exact (proj2 (proj2 (empty_registry_noop default_validated_skills
                         default_skills_empty)) _ _).
Defined.

(** ** Reordering again *)

Lemma sorted_desc_id {A} (key : A → Z) (l : list A) :
  StronglySorted (λ a b, key b ≤ key a) l → sorted_desc key l = l.
Proof.
  induction 1 as [|x l Hl IH Hx]; [done|].
  unfold sorted_desc in *. cbn [foldr]. rewrite IH.
  destruct l as [|y l]; [done|]. cbn [insert_desc].
  apply Forall_cons in Hx as [Hy _].
  by rewrite (proj2 (Z.ltb_ge (key x) (key y)) Hy).
Qed.

Lemma score_of_empty details : score_of [] details = 0.
Proof.
  unfold score_of. induction details as [|d details IH]; [done|].
  rewrite fmap_cons, sum_list_cons. cbn [List.filter fmap list_fmap sum_list foldr].
  exact IH.
Qed.

Lemma equal_keys_sorted {A} (key : A → Z) (z : Z) (l : list A) :
  Forall (λ a, key a = z) l → StronglySorted (λ a b, key b ≤ key a) l.
Proof.
  induction 1 as [|x l Hx Hl IH]; constructor; [done|].
  eapply Forall_impl; [exact Hl|]. intros y Hy. cbn in Hy. lia.
Qed.

(** [reorder_technologies] returns a section list that is already in
    descending order of score as it is; so it changes nothing when all
    items have the same score, as they do with an empty keyword map, and
    reordering its own result changes nothing. *)
Theorem reorder_technologies_fixed_points items matched :
  well_formed_items items →
  (StronglySorted (λ a b, item_score matched b ≤ item_score matched a) items →
   reorder_technologies (VList items) matched = Some (VList items))
  ∧ (∀ z, Forall (λ it, item_score matched it = z) items →
          reorder_technologies (VList items) matched = Some (VList items))
  ∧ reorder_technologies (VList items) [] = Some (VList items)
  ∧ (∀ out,
       reorder_technologies (VList items) matched = Some (VList out) →
       reorder_technologies (VList out) matched = Some (VList out)).
Proof.
  intros Hwf.
  assert (Hsorted : ∀ (l : list value) m,
    well_formed_items l →
    StronglySorted (λ a b, item_score m b ≤ item_score m a) l →
    reorder_technologies (VList l) m = Some (VList l)).
  { intros l m Hl Hs. rewrite reorder_technologies_sorted by done.
    by rewrite sorted_desc_id. }
  split; [by apply Hsorted|]. split; [|split].
  - intros z Hz. apply Hsorted; [done|]. by apply (equal_keys_sorted _ z).
  - apply Hsorted; [done|]. apply (equal_keys_sorted _ 0).
    apply Forall_forall. intros it _. apply score_of_empty.
  - intros out. rewrite reorder_technologies_sorted by done. intros [= <-].
    apply Hsorted; [|apply sorted_desc_sorted].
    unfold well_formed_items. by rewrite sorted_desc_perm.
Qed.

Lemma reorder_technologies_fixed_points_witness :
  well_formed_items scenario_items
  ∧ reorder_technologies (VList scenario_items) [] = Some (VList scenario_items)
  ∧ reorder_technologies
      (VList [item "B" ["uses python"]; item "A" ["uses java"]])
      [("python", 5); ("java", 1)]
    = Some (VList [item "B" ["uses python"]; item "A" ["uses java"]]).
Proof.
  assert (H : well_formed_items scenario_items)
    by (repeat constructor; vm_compute; eexists; reflexivity).
  assert (H' : well_formed_items
                 [item "A" ["uses java"]; item "B" ["uses python"]])
    by (repeat constructor; vm_compute; eexists; reflexivity).
  split; [exact H|]. split.
  - exact (proj1 (proj2 (proj2
      (reorder_technologies_fixed_points scenario_items [] H)))).
  - apply (proj2 (proj2 (proj2
      (reorder_technologies_fixed_points _ [("python", 5); ("java", 1)] H')))).
    vm_compute. reflexivity.
Defined.

(** ** Keywords with an upper-case letter *)










(** ** Enhancing an enhanced summary *)

Lemma str_app_assoc (a b c : string) : (a +:+ b) +:+ c = a +:+ (b +:+ c).
Proof.
  induction a as [|x a IH]; [done|]. by rewrite !str_app_cons, IH.
Qed.

Lemma str_app_nil_r (a : string) : a +:+ "" = a.
Proof. induction a as [|x a IH]; [done|]. by rewrite str_app_cons, IH. Qed.

Lemma lower_app (a b : string) : lower (a +:+ b) = lower a +:+ lower b.
Proof.
  induction a as [|x a IH]; [done|].
  rewrite str_app_cons. cbn [lower]. by rewrite IH, str_app_cons.
Qed.

Lemma contains_refl k : contains k k = true.
Proof. apply contains_spec. exists "", "". by rewrite str_app_nil, str_app_nil_r. Qed.

Lemma contains_app_l k (a b : string) :
  contains k a = true → contains k (a +:+ b) = true.
Proof.
  intros (x & y & ->)%contains_spec. apply contains_spec.
  exists x, (y +:+ b). by rewrite !str_app_assoc.
Qed.

Lemma contains_app_r k (a b : string) :
  contains k b = true → contains k (a +:+ b) = true.
Proof.
  intros (x & y & ->)%contains_spec. apply contains_spec.
  exists (a +:+ x), y. by rewrite !str_app_assoc.
Qed.

Lemma contains_lower k s :
  contains k s = true → contains (lower k) (lower s) = true.
Proof.
  intros (x & y & ->)%contains_spec. apply contains_spec.
  exists (lower x), (lower y). by rewrite !lower_app.
Qed.

Lemma contains_join sep k l : k ∈ l → contains k (join sep l) = true.
Proof.
  induction l as [|x l IH]; [by intros ?%elem_of_nil|].
  intros [->|Hin]%elem_of_cons.
  - destruct l as [|y l]; cbn [join]; [apply contains_refl|].
    apply contains_app_l, contains_refl.
  - destruct l as [|y l]; [by apply elem_of_nil in Hin|].
    change (join sep (x :: y :: l)) with (x +:+ sep +:+ join sep (y :: l)).
    by apply contains_app_r, contains_app_r, IH.
Qed.

(** How a text followed by a dot splits in two. *)
Lemma app_dot_split (a b c : string) :
  a +:+ "." = b +:+ c →
  (c = "" ∧ b = a +:+ ".") ∨ ∃ c', c = c' +:+ "." ∧ a = b +:+ c'.
Proof.
  revert a. induction b as [|d b IH]; intros a Heq.
  { right. exists a. by rewrite !str_app_nil in *. }
  rewrite str_app_cons in Heq. destruct a as [|e a].
  - rewrite str_app_nil in Heq. injection Heq as <- Heq.
    destruct b; [|done]. rewrite str_app_nil in Heq. subst c. by left.
  - rewrite str_app_cons in Heq. injection Heq as -> Heq.
    destruct (IH _ Heq) as [[-> ->]|(c' & -> & ->)].
    + left. by rewrite str_app_cons.
    + right. exists c'. by rewrite str_app_cons.
Qed.

(** An occurrence in a text followed by a dot lies in the text, unless
    the keyword itself ends with a dot. *)
Lemma contains_before_dot k a :
  contains k (a +:+ ".") = true → ends_with_dot k = false →
  contains k a = true.
Proof.
  intros (x & y & Heq)%contains_spec Hk. apply contains_spec.
  destruct (app_dot_split _ _ _ Heq) as [[Hempty _]|(c' & Hc' & ->)].
  - destruct k; [|done]. exists a, "". by rewrite str_app_nil, str_app_nil_r.
  - symmetry in Hc'.
    destruct (app_dot_split _ _ _ Hc') as [[-> ->]|(y' & -> & ->)].
    + assert (Hd : ends_with_dot (c' +:+ ".") = true)
        by (apply ends_with_dot_spec; by exists c').
      congruence.
    + by exists x, y'.
Qed.

Lemma filter_all_false {A} (f : A → bool) (l : list A) :
  (∀ x, x ∈ l → f x = false) → List.filter f l = [].
Proof.
  induction l as [|x l IH]; [done|]. intros Hf. cbn [List.filter].
  rewrite (Hf x) by left. apply IH. intros y Hy. apply Hf. by right.
Qed.

Lemma enhance_summary_unchanged summary top_keywords :
  (∀ k, k ∈ take 3 top_keywords → contains k (lower summary) = true) →
  enhance_summary summary top_keywords = summary.
Proof.
  intros Hall. unfold enhance_summary.
  rewrite filter_all_false; [done|].
  intros k Hk. by rewrite (Hall k Hk).
Qed.

(** Enhancing an enhanced summary with the same keywords changes
    nothing, when the first three keywords are lower-case and none ends
    with a dot, as is the case for the vocabulary. *)
Theorem enhance_summary_idempotent summary top_keywords :
  Forall (λ k, lower k = k ∧ ends_with_dot k = false) (take 3 top_keywords) →
  enhance_summary (enhance_summary summary top_keywords) top_keywords
  = enhance_summary summary top_keywords.
Proof.
  intros Hkw. rewrite Forall_forall in Hkw.
  apply enhance_summary_unchanged. intros k Hk.
  destruct (Hkw k Hk) as [Hlow Hdot].
  unfold enhance_summary.
  destruct (List.filter _ (take 3 top_keywords)) as [|k0 kept] eqn:Hkept.
  { destruct (contains k (lower summary)) eqn:Hc; [done|].
    assert (Hin : In k (List.filter
      (λ keyword, negb (contains keyword (lower summary)))
      (take 3 top_keywords))).
    { apply filter_In. split; [by apply list_elem_of_In|]. by rewrite Hc. }
    by rewrite Hkept in Hin. }
  assert (Hadded : contains k (lower summary) = false →
                   contains k (lower (join ", " (k0 :: kept))) = true).
  { intros Hc. rewrite <-Hlow at 1. apply contains_lower, contains_join.
    apply list_elem_of_In. rewrite <-Hkept.
    apply filter_In. split; [by apply list_elem_of_In|]. by rewrite Hc. }
  destruct (ends_with_dot summary) eqn:Hd.
  - apply ends_with_dot_spec in Hd as [body ->].
    rewrite str_app_length. cbn [String.length].
    replace (String.length body + 1 - 1)%nat with (String.length body) by lia.
    rewrite str_take_app, !lower_app.
    destruct (contains k (lower (body +:+ "."))) eqn:Hc.
    + rewrite lower_app in Hc. apply contains_app_l.
      by apply contains_before_dot.
    + by apply contains_app_r, contains_app_r, contains_app_l, Hadded.
  - rewrite !lower_app.
    destruct (contains k (lower summary)) eqn:Hc.
    + by apply contains_app_l.
    + by apply contains_app_r, contains_app_r, contains_app_l, Hadded.
Qed.

Lemma enhance_summary_idempotent_witness :
  Forall (λ k, lower k = k ∧ ends_with_dot k = false)
    (take 3 ["node.js"; "go"; "rust"; "java"])
  ∧ enhance_summary
      "Engineer, including expertise in node.js, go, rust."
      ["node.js"; "go"; "rust"; "java"]
    = "Engineer, including expertise in node.js, go, rust.".
Proof.
  assert (H : Forall (λ k, lower k = k ∧ ends_with_dot k = false)
                (take 3 ["node.js"; "go"; "rust"; "java"]))
    by (repeat constructor).
  split; [exact H|].
  refine (eq_trans _
    (eq_trans (enhance_summary_idempotent "Engineer."
                 ["node.js"; "go"; "rust"; "java"] H) _));
    vm_compute; reflexivity.
Defined.

(** ** The section [add_relevant_skills] prepends *)

Lemma filter_sublist {A} (f : A → bool) (l : list A) :
  List.filter f l `sublist_of` l.
Proof.
  induction l as [|x l IH]; [done|]. cbn [List.filter].
  destruct (f x); [by apply sublist_skip|by apply sublist_cons].
Qed.

(** [add_relevant_skills] keeps every section of the list in place and
    puts at most one section in front of them. The section it adds is
    labelled [Job-Relevant Technologies] and has between one and six
    details, which are keywords of the map in the order of the ranking by
    descending count. *)
Theorem add_relevant_skills_section items matched :
  well_formed_items items →
  ∃ added,
    add_relevant_skills (VList items) matched = Some (VList (added ++ items))
    ∧ (added = []
       ∨ ∃ details,
           added = [VDict [("label", VStr "Job-Relevant Technologies");
                           ("details", VList (VStr <$> details))]]
           ∧ (1 ≤ length details ≤ 6)%nat
           ∧ details `sublist_of` (sorted_desc snd matched).*1).
Proof.
  intros Hwf. rewrite add_relevant_skills_shape by done. cbv zeta.
  destruct (List.filter _ (take 8 (sorted_desc snd matched)).*1)
    as [|kw new] eqn:Hnew.
  { exists []. split; [done|by left]. }
  exists [job_relevant_section (kw :: new)]. split; [done|]. right.
  exists (take 6 (kw :: new)). split; [done|]. split.
  - rewrite length_take. cbn [length]. lia.
  - etrans; [apply sublist_take|]. rewrite <-Hnew.
    etrans; [apply filter_sublist|].
    apply fmap_sublist, sublist_take.
Qed.

Lemma add_relevant_skills_section_witness :
  well_formed_items scenario_items
  ∧ ∃ added,
      add_relevant_skills (VList scenario_items)
        [("java", 1); ("go", 2); ("zsh", 1)]
      = Some (VList (added ++ scenario_items)).
Proof.
  assert (H : well_formed_items scenario_items)
    by (repeat constructor; vm_compute; eexists; reflexivity).
  split; [exact H|].
  destruct (add_relevant_skills_section scenario_items
              [("java", 1); ("go", 2); ("zsh", 1)] H) as (added & Heq & _).
  by exists added.
Defined.

Lemma section_details_cons tech_item items ds :
  item_details tech_item = Some ds →
  section_details (tech_item :: items) = ds ++ section_details items.
Proof. intros H. unfold section_details. by rewrite fmap_cons, H. Qed.

(** Running [add_relevant_skills] on its own result, with the same
    keyword map, changes nothing when at most six keywords were kept the
    first time (the keys of the map being lower-case): the keywords it
    added are now existing details. *)
Theorem add_relevant_skills_again items matched out :
  lowercase_keys matched → well_formed_items items →
  (length (List.filter
             (λ kw, bool_decide (kw ∉ lower <$> section_details items))
             (take 8 (sorted_desc snd matched)).*1) ≤ 6)%nat →
  add_relevant_skills (VList items) matched = Some (VList out) →
  add_relevant_skills (VList out) matched = Some (VList out).
Proof.
  intros Hlow Hwf Hlen. rewrite add_relevant_skills_shape by done. cbv zeta.
  destruct (List.filter _ (take 8 (sorted_desc snd matched)).*1)
    as [|kw new] eqn:Hnew.
  { intros [= <-]. rewrite add_relevant_skills_shape by done. cbv zeta.
    by rewrite Hnew. }
  intros [= <-].
  assert (Hwf' : well_formed_items (job_relevant_section (kw :: new) :: items)).
  { constructor; [|done]. rewrite item_details_job_section. by eexists. }
  rewrite add_relevant_skills_shape by done. cbv zeta.
  rewrite filter_all_false; [done|].
  intros k Hk. apply bool_decide_eq_false_2. intros Hnot. apply Hnot.
  rewrite (section_details_cons _ _ _ (item_details_job_section (kw :: new))).
  rewrite take_ge by done. rewrite fmap_app, elem_of_app.
  destruct (decide (k ∈ lower <$> section_details items)) as [Hin|Hout];
    [by right|left].
  assert (Hkept : k ∈ kw :: new).
  { rewrite <-Hnew. apply list_elem_of_In, filter_In.
    split; [by apply list_elem_of_In|]. by apply bool_decide_eq_true_2. }
  pose proof (top_keywords_lowercase matched 8 Hlow) as Hall.
  rewrite Forall_forall in Hall. rewrite <-(Hall k Hk).
  by apply list_elem_of_fmap_2.
Qed.

Lemma add_relevant_skills_again_witness :
  lowercase_keys [("python", 5); ("java", 1); ("go", 2); ("zsh", 1)]
  ∧ well_formed_items scenario_items
  ∧ add_relevant_skills
      (VList (job_relevant_section ["java"; "zsh"] :: scenario_items))
      [("python", 5); ("java", 1); ("go", 2); ("zsh", 1)]
    = Some (VList (job_relevant_section ["java"; "zsh"] :: scenario_items)).
Proof.
  assert (H1 : lowercase_keys [("python", 5); ("java", 1); ("go", 2); ("zsh", 1)])
    by (repeat constructor).
  assert (H2 : well_formed_items scenario_items)
    by (repeat constructor; vm_compute; eexists; reflexivity).
  split; [exact H1|]. split; [exact H2|].
  apply (add_relevant_skills_again scenario_items _ _ H1 H2).
  - vm_compute. lia.
  - vm_compute. reflexivity.
Defined.

(** ** What [optimize_resume] writes *)

Lemma gate_loop_sound vs level keywords acc gated :
  gate_loop vs level keywords acc = Some gated →
  ∀ k, k ∈ gated.*1 →
       k ∈ acc.*1
       ∨ (k ∈ keywords.*1 ∧ validate_keyword vs k level = Some true).
Proof.
  revert acc. induction keywords as [|[k0 c0] keywords IH]; intros acc.
  { intros [= <-] k Hk. by left. }
  cbn [gate_loop]. destruct (validate_keyword vs k0 level) as [b|] eqn:Hb;
    [|done].
  cbn [mbind option_bind]. intros Hloop k Hk.
  destruct (IH _ Hloop k Hk) as [Hacc|[Hin Hv]].
  - destruct b.
    + apply dict_set_key_elem in Hacc as [->|Hacc]; [|by left].
      right. split; [|done]. rewrite fmap_cons. left.
    + by left.
  - right. split; [|done]. rewrite fmap_cons. by right.
Qed.

Lemma get_path_technologies r tech :
  get_path ["cv"; "sections"; "technologies"] (VDict r) = Some tech →
  ∃ cv sections,
    dict_get "cv" r = Some (VDict cv)
    ∧ dict_get "sections" cv = Some (VDict sections)
    ∧ dict_get "technologies" sections = Some tech.
Proof.
  cbn [get_path py_getitem].
  destruct (dict_get "cv" r) as [[| | | | |cv]|] eqn:Hcv; try done.
  cbn [mbind option_bind py_getitem].
  destruct (dict_get "sections" cv) as [[| | | | |sections]|] eqn:Hs;
    try done.
  cbn [mbind option_bind py_getitem].
  destruct (dict_get "technologies" sections) as [t|] eqn:Ht; [|done].
  cbn [mbind option_bind]. intros [= <-]. by exists cv, sections.
Qed.

Lemma get_path_summary r v :
  get_path ["cv"; "summary"] (VDict r) = Some v →
  ∃ cv, dict_get "cv" r = Some (VDict cv) ∧ dict_get "summary" cv = Some v.
Proof.
  cbn [get_path py_getitem].
  destruct (dict_get "cv" r) as [[| | | | |cv]|] eqn:Hcv; try done.
  cbn [mbind option_bind py_getitem].
  destruct (dict_get "summary" cv) as [t|] eqn:Ht; [|done].
  cbn [mbind option_bind]. intros [= <-]. by exists cv.
Qed.

(** What the [technologies] step leaves at its path. *)
Lemma optimize_technologies_result vs safe r tech r' :
  get_path ["cv"; "sections"; "technologies"] (VDict r) = Some tech →
  optimize_technologies vs safe r = Some r' →
  ∃ tech1 relevant tech2,
    reorder_technologies tech safe = Some tech1
    ∧ gate_loop vs "familiar" safe [] = Some relevant
    ∧ add_relevant_skills tech1 relevant = Some tech2
    ∧ get_path ["cv"; "sections"; "technologies"] (VDict r') = Some tech2.
Proof.
  intros (cv & sections & Hcv & Hsec & Htech)%get_path_technologies.
  unfold optimize_technologies. rewrite Hcv.
  cbn [py_contains py_getitem mbind option_bind]. unfold dict_has.
  rewrite Hsec. cbn [py_contains py_getitem mbind option_bind].
  unfold dict_has. rewrite Htech. cbn [mbind option_bind].
  destruct (reorder_technologies tech safe) as [tech1|] eqn:Hre; [|done].
  cbn [mbind option_bind].
  destruct (gate_loop vs "familiar" safe []) as [relevant|] eqn:Hrel; [|done].
  cbn [mbind option_bind].
  destruct (add_relevant_skills tech1 relevant) as [tech2|] eqn:Hadd; [|done].
  cbn [mbind option_bind py_setitem]. intros [= <-].
  exists tech1, relevant, tech2. repeat split; try done.
  cbn [get_path py_getitem]. rewrite dict_get_set_eq.
  cbn [mbind option_bind py_getitem]. rewrite dict_get_set_eq.
  cbn [mbind option_bind py_getitem]. by rewrite dict_get_set_eq.
Qed.

(** What the [summary] step leaves at its path. *)
Lemma optimize_summary_result vs safe r summary r' :
  get_path ["cv"; "summary"] (VDict r) = Some (VStr summary) →
  optimize_summary vs safe r = Some r' →
  ∃ expert,
    gate_loop vs "proficient" safe [] = Some expert
    ∧ get_path ["cv"; "summary"] (VDict r')
      = Some (VStr (enhance_summary summary (sorted_desc snd expert).*1)).
Proof.
  intros (cv & Hcv & Hsum)%get_path_summary.
  unfold optimize_summary. rewrite Hcv.
  cbn [py_contains py_getitem mbind option_bind]. unfold dict_has.
  rewrite Hsum. cbn [mbind option_bind].
  destruct (gate_loop vs "proficient" safe []) as [expert|] eqn:Hex; [|done].
  cbn [mbind option_bind py_setitem]. intros [= <-].
  exists expert. split; [done|].
  cbn [get_path py_getitem]. rewrite dict_get_set_eq.
  cbn [mbind option_bind py_getitem]. by rewrite dict_get_set_eq.
Qed.

Lemma step_at_other q q' r r' :
  step_at q r r' → ¬ q `prefix_of` q' → ¬ q' `prefix_of` q →
  get_path q' (VDict r') = get_path q' (VDict r).
Proof.
  intros [->|[x Hset]] H1 H2; [done|]. by apply (set_path_frame q x).
Qed.

Lemma summary_technologies_apart :
  ¬ ["cv"; "summary"] `prefix_of` ["cv"; "sections"; "technologies"]
  ∧ ¬ ["cv"; "sections"; "technologies"] `prefix_of` ["cv"; "summary"].
Proof. split; intros [k Hk]; discriminate. Qed.

Lemma enhance_summary_nil summary : enhance_summary summary [] = summary.
Proof. reflexivity. Qed.

(** The technologies of the result: the input's, reordered, behind at
    most one new section whose keywords are job keywords that validate
    at [familiar]. *)
Lemma optimize_resume_technologies vs resume job_keywords out items :
  get_path ["cv"; "sections"; "technologies"] (VDict resume)
  = Some (VList items) →
  well_formed_items items →
  optimize_resume vs resume job_keywords = Some out →
  ∃ added kept,
    get_path ["cv"; "sections"; "technologies"] (VDict out)
    = Some (VList (added ++ kept))
    ∧ kept ≡ₚ items
    ∧ (added = []
       ∨ ∃ new_keywords,
           added = [job_relevant_section new_keywords]
           ∧ new_keywords ≠ []
           ∧ Forall
               (λ k, k ∈ job_keywords.*1
                     ∧ validate_keyword vs k "familiar" = Some true)
               new_keywords).
Proof.
  intros Hpath Hwf. unfold optimize_resume.
  destruct job_keywords as [|kc kws];
    [intros [= <-]; exists [], items; split; [done|]; split; [done|by left]|].
  destruct (filter_safe_keywords vs (kc :: kws)) as [safe|] eqn:Hsafe; [|done].
  cbn [mbind option_bind].
  destruct safe as [|s safe];
    [intros [= <-]; exists [], items; split; [done|]; split; [done|by left]|].
  destruct (optimize_summary vs (s :: safe) resume) as [r1|] eqn:H1; [|done].
  cbn [mbind option_bind]. intros H2.
  destruct summary_technologies_apart as [Ha Hb].
  assert (Hpath1 : get_path ["cv"; "sections"; "technologies"] (VDict r1)
                   = Some (VList items)).
  { rewrite <-Hpath.
    by apply (step_at_other _ _ _ _ (optimize_summary_step _ _ _ _ H1)). }
  destruct (optimize_technologies_result _ _ _ _ _ Hpath1 H2)
    as (tech1 & relevant & tech2 & Hre & Hrel & Hadd & Hout).
  destruct (reorder_technologies_total items (s :: safe) Hwf)
    as (sorted & Hsorted & Hperm).
  rewrite Hsorted in Hre. injection Hre as <-.
  assert (Hwf' : well_formed_items sorted)
    by (unfold well_formed_items; by rewrite Hperm).
  rewrite add_relevant_skills_shape in Hadd by done. cbv zeta in Hadd.
  injection Hadd as <-.
  destruct (List.filter _ (take 8 (sorted_desc snd relevant)).*1)
    as [|kw new] eqn:Hnew.
  { exists [], sorted. split; [done|]. split; [done|by left]. }
  exists [job_relevant_section (kw :: new)], sorted.
  split; [done|]. split; [done|]. right.
  exists (kw :: new). split; [done|]. split; [done|].
  apply Forall_forall. intros k Hk. rewrite <-Hnew in Hk.
  apply list_elem_of_In, filter_In in Hk as [Hk _].
  apply list_elem_of_In in Hk.
  assert (Hrelk : k ∈ relevant.*1).
  { apply list_elem_of_fmap in Hk as (x & -> & Hx).
    apply (subseteq_take 8) in Hx. rewrite sorted_desc_perm in Hx.
    by apply (list_elem_of_fmap_2 fst) in Hx. }
  destruct (gate_loop_sound _ _ _ _ _ Hrel k Hrelk) as [Hnil|[Hs Hv]].
  - by apply elem_of_nil in Hnil.
  - split; [|exact Hv].
    destruct (gate_loop_sound _ _ _ _ _ Hsafe k Hs) as [Hnil|[Hj _]];
      [by apply elem_of_nil in Hnil|exact Hj].
Qed.

(** The summary of the result: the input's, enhanced with job keywords
    that validate at [proficient]. *)
Lemma optimize_resume_summary vs resume job_keywords out summary :
  get_path ["cv"; "summary"] (VDict resume) = Some (VStr summary) →
  optimize_resume vs resume job_keywords = Some out →
  ∃ top_kw_list,
    get_path ["cv"; "summary"] (VDict out)
    = Some (VStr (enhance_summary summary top_kw_list))
    ∧ Forall
        (λ k, k ∈ job_keywords.*1
              ∧ validate_keyword vs k "proficient" = Some true)
        top_kw_list.
Proof.
  intros Hpath. unfold optimize_resume.
  destruct job_keywords as [|kc kws];
    [intros [= <-]; exists []; split; [done|constructor]|].
  destruct (filter_safe_keywords vs (kc :: kws)) as [safe|] eqn:Hsafe; [|done].
  cbn [mbind option_bind].
  destruct safe as [|s safe];
    [intros [= <-]; exists []; split; [done|constructor]|].
  destruct (optimize_summary vs (s :: safe) resume) as [r1|] eqn:H1; [|done].
  cbn [mbind option_bind]. intros H2.
  destruct summary_technologies_apart as [Ha Hb].
  destruct (optimize_summary_result _ _ _ _ _ Hpath H1) as (expert & Hex & Hr1).
  exists (sorted_desc snd expert).*1. split.
  - rewrite <-Hr1.
    by apply (step_at_other _ _ _ _ (optimize_technologies_step _ _ _ _ H2)).
  - apply Forall_forall. intros k Hk.
    apply list_elem_of_fmap in Hk as (x & -> & Hx).
    rewrite sorted_desc_perm in Hx. apply (list_elem_of_fmap_2 fst) in Hx.
    destruct (gate_loop_sound _ _ _ _ _ Hex _ Hx) as [Hnil|[Hs Hv]];
      [by apply elem_of_nil in Hnil|].
    split; [|exact Hv].
    destruct (gate_loop_sound _ _ _ _ _ Hsafe _ Hs) as [Hnil|[Hj _]];
      [by apply elem_of_nil in Hnil|exact Hj].
Qed.

(** The technologies [optimize_resume] returns are the technologies it
    was given, all of them, reordered, behind at most one new section;
    every detail of that section is one of the job keywords and validates
    at [familiar], so no keyword in [never_add] and no keyword outside
    the registry is ever added. *)
Theorem optimize_resume_adds_validated vs resume job_keywords out items :
  get_path ["cv"; "sections"; "technologies"] (VDict resume)
  = Some (VList items) →
  well_formed_items items →
  optimize_resume vs resume job_keywords = Some out →
  ∃ added kept,
    get_path ["cv"; "sections"; "technologies"] (VDict out)
    = Some (VList (added ++ kept))
    ∧ kept ≡ₚ items
    ∧ (added = []
       ∨ ∃ section details,
           added = [section]
           ∧ item_details section = Some details
           ∧ details ≠ []
           ∧ Forall
               (λ k, k ∈ job_keywords.*1
                     ∧ validate_keyword vs k "familiar" = Some true
                     ∧ registered vs "never_add" (lower k) = false)
               details).
Proof.
  intros Hpath Hwf Hout.
  destruct (optimize_resume_technologies _ _ _ _ _ Hpath Hwf Hout)
    as (added & kept & Hget & Hperm & Hadded).
  exists added, kept. split; [done|]. split; [done|].
  destruct Hadded as [->|(new & -> & Hne & Hall)]; [by left|right].
  exists (job_relevant_section new), (take 6 new).
  split; [done|]. split; [apply item_details_job_section|].
  split; [by destruct new|].
  apply Forall_take. eapply Forall_impl; [exact Hall|].
  intros k [Hk Hv]. split; [done|]. split; [done|].
  unfold validate_keyword in Hv.
  by destruct (registered vs "never_add" (lower k)).
Qed.

Lemma optimize_resume_adds_validated_witness :
  get_path ["cv"; "sections"; "technologies"] (VDict full_resume)
  = Some (VList [item "Tools" ["Git"]; item "Languages" ["uses Python"]])
  ∧ well_formed_items [item "Tools" ["Git"]; item "Languages" ["uses Python"]]
  ∧ optimize_resume python_skills full_resume [("python", 2); ("docker", 1)]
    = Some optimized_full_resume
  ∧ ∃ added kept,
      get_path ["cv"; "sections"; "technologies"] (VDict optimized_full_resume)
      = Some (VList (added ++ kept))
      ∧ kept ≡ₚ [item "Tools" ["Git"]; item "Languages" ["uses Python"]].
Proof.
  assert (H1 : get_path ["cv"; "sections"; "technologies"] (VDict full_resume)
    = Some (VList [item "Tools" ["Git"]; item "Languages" ["uses Python"]]))
    by (vm_compute; reflexivity).
  assert (H2 : well_formed_items
                 [item "Tools" ["Git"]; item "Languages" ["uses Python"]])
    by (repeat constructor; vm_compute; eexists; reflexivity).
  assert (H3 : optimize_resume python_skills full_resume
                 [("python", 2); ("docker", 1)]
               = Some optimized_full_resume) by (vm_compute; reflexivity).
  split; [exact H1|]. split; [exact H2|]. split; [exact H3|].
  destruct (optimize_resume_adds_validated _ _ _ _ _ H1 H2 H3)
    as (added & kept & Hget & Hperm & _).
  exists added, kept. split; [exact Hget|exact Hperm].
Defined.

(** The summary [optimize_resume] returns is [enhance_summary] of the
    summary it was given with keywords that are all job keywords
    validating at [proficient]: a keyword the user is only familiar with,
    or is learning, never enters the summary. *)
Theorem optimize_resume_summary_proficient vs resume job_keywords out summary :
  get_path ["cv"; "summary"] (VDict resume) = Some (VStr summary) →
  optimize_resume vs resume job_keywords = Some out →
  ∃ top_kw_list,
    get_path ["cv"; "summary"] (VDict out)
    = Some (VStr (enhance_summary summary top_kw_list))
    ∧ Forall
        (λ k, k ∈ job_keywords.*1
              ∧ validate_keyword vs k "proficient" = Some true)
        top_kw_list.
Proof. apply optimize_resume_summary. Qed.

Lemma optimize_resume_summary_proficient_witness :
  get_path ["cv"; "summary"] (VDict full_resume)
  = Some (VStr "Backend engineer.")
  ∧ optimize_resume python_skills full_resume [("python", 2); ("docker", 1)]
    = Some optimized_full_resume
  ∧ ∃ top_kw_list,
      get_path ["cv"; "summary"] (VDict optimized_full_resume)
      = Some (VStr (enhance_summary "Backend engineer." top_kw_list)).
Proof.
  assert (H1 : get_path ["cv"; "summary"] (VDict full_resume)
               = Some (VStr "Backend engineer.")) by (vm_compute; reflexivity).
  assert (H3 : optimize_resume python_skills full_resume
                 [("python", 2); ("docker", 1)]
               = Some optimized_full_resume) by (vm_compute; reflexivity).
  split; [exact H1|]. split; [exact H3|].
  destruct (optimize_resume_summary_proficient _ _ _ _ _ H1 H3)
    as (tops & Hget & _).
  exists tops. exact Hget.
Defined.

(** ** Resumes [optimize_resume] cannot handle *)

(** As soon as one job keyword is safe, [optimize_resume] raises on a
    resume whose [cv] is null, a number or a boolean (the test
    ['summary' in cv] is a [TypeError]) and on a resume whose [cv] is a
    mapping with a [summary] that is not a string (it has no [lower]). *)
Theorem optimize_resume_raises vs resume job_keywords kc safe :
  filter_safe_keywords vs job_keywords = Some (kc :: safe) →
  (∀ cv, dict_get "cv" resume = Some cv →
         match cv with
         | VNone | VBool _ | VInt _ => True
         | _ => False
         end →
         optimize_resume vs resume job_keywords = None)
  ∧ (∀ cv summary,
       dict_get "cv" resume = Some (VDict cv) →
       dict_get "summary" cv = Some summary →
       str_of summary = None →
       optimize_resume vs resume job_keywords = None).
Proof.
  intros Hsafe. destruct hierarchy_index as (_ & _ & H2 & _).
  assert (Hne : job_keywords ≠ []) by (by intros ->).
  split.
  - intros cv Hcv Hkind. unfold optimize_resume. rewrite Hsafe.
    destruct job_keywords; [done|]. cbn [mbind option_bind].
    unfold optimize_summary. rewrite Hcv. by destruct cv.
  - intros cv summary Hcv Hsum Hstr. unfold optimize_resume. rewrite Hsafe.
    destruct job_keywords; [done|]. cbn [mbind option_bind].
    unfold optimize_summary. rewrite Hcv.
    cbn [py_contains mbind option_bind py_getitem]. unfold dict_has.
    rewrite Hsum.
    destruct (gate_loop_total vs "proficient" 2 (kc :: safe) [] H2) as [ek ->].
    cbn [mbind option_bind]. by destruct summary.
Qed.

Lemma optimize_resume_raises_witness :
  filter_safe_keywords python_skills [("python", 2); ("java", 1)]
  = Some [("python", 2)]
  ∧ optimize_resume python_skills [("cv", VNone)] [("python", 2); ("java", 1)]
    = None
  ∧ optimize_resume python_skills
      [("cv", VDict [("summary", VNone)])] [("python", 2); ("java", 1)]
    = None.
Proof.
  assert (H : filter_safe_keywords python_skills [("python", 2); ("java", 1)]
              = Some [("python", 2)]) by (vm_compute; reflexivity).
  split; [exact H|]. split.
  - exact (proj1 (optimize_resume_raises python_skills [("cv", VNone)]
                    _ _ _ H) VNone eq_refl I).
  - exact (proj2 (optimize_resume_raises python_skills
                    [("cv", VDict [("summary", VNone)])] _ _ _ H)
             [("summary", VNone)] VNone eq_refl eq_refl eq_refl).
Defined.

(** ** The run of [main] *)

Lemma extract_keywords_over_key vocab text k :
  k ∈ (extract_keywords_over vocab text).*1 →
  k ∈ vocab ∧ (0 < term_count text k)%nat.
Proof.
  intros Hk.
  destruct (dict_get k (extract_keywords_over vocab text)) as [c|] eqn:Hget.
  - rewrite extract_keywords_over_lookup in Hget.
    destruct (bool_decide (k ∈ vocab)) eqn:Hin; [|done].
    destruct (0 <? term_count text k)%nat eqn:Hpos; [|done].
    split; [by apply bool_decide_eq_true in Hin|by apply Nat.ltb_lt].
  - by apply dict_get_None in Hget.
Qed.

Lemma dict_all_None {V} (d : list (string * V)) :
  (∀ k, dict_get k d = None) → d = [].
Proof.
  destruct d as [|[k v] d]; [done|]. intros H. specialize (H k).
  cbn [dict_get] in H. by rewrite decide_True in H.
Qed.

Lemma extract_keywords_over_none vocab text :
  (∀ k, k ∈ vocab → term_count text k = O) →
  extract_keywords_over vocab text = [].
Proof.
  intros Hzero. apply dict_all_None. intros k.
  rewrite extract_keywords_over_lookup.
  destruct (bool_decide (k ∈ vocab)) eqn:Hin; [|done].
  apply bool_decide_eq_true in Hin. by rewrite (Hzero k Hin).
Qed.

(** How a run ends: [main] returns without saving exactly when the
    loaded resume is empty or the job text is empty; on a resume of the
    documented shape no exception escapes; and when no term of the
    vocabulary occurs in the job text, the resume that is saved is the
    resume that was loaded. *)
Theorem main_body_outcome vs order resume_data job_text :
  (main_body vs order resume_data job_text = Returned
   ↔ resume_data = [] ∨ job_text = "")
  ∧ (well_formed_resume resume_data →
     main_body vs order resume_data job_text ≠ Raised)
  ∧ (resume_data ≠ [] → job_text ≠ "" →
     (∀ k, k ∈ order → term_count job_text k = O) →
     main_body vs order resume_data job_text = Saved resume_data).
Proof.
  unfold main_body. split; [|split].
  - destruct resume_data as [|kv resume_data]; [by split; [left|]|].
    rewrite (bool_decide_eq_false_2 (length (kv :: resume_data) = O)) by done.
    case_bool_decide as Htext; [by split; [right|]|].
    split; [|by intros [|]].
    by destruct (optimize_resume vs (kv :: resume_data) _).
  - intros Hwf. repeat case_bool_decide; try done.
    by destruct (optimize_resume_total vs resume_data
                   (extract_keywords_over order job_text) Hwf) as [r ->].
  - intros Hr Ht Hzero.
    rewrite bool_decide_eq_false_2 by (by destruct resume_data).
    rewrite bool_decide_eq_false_2 by done.
    by rewrite extract_keywords_over_none.
Qed.

Lemma main_body_outcome_witness :
  well_formed_resume full_resume
  ∧ main_body python_skills tech_keywords full_resume
      "Python on Docker, and more Python."
    = Saved optimized_full_resume.
Proof.
  assert (Hwf : well_formed_resume full_resume).
  { vm_compute. repeat constructor; eexists; reflexivity. }
  split; [exact Hwf|].
  pose proof (proj1 (proj2 (main_body_outcome python_skills tech_keywords
    full_resume "Python on Docker, and more Python.")) Hwf) as Hnot.
  destruct (main_body python_skills tech_keywords full_resume
              "Python on Docker, and more Python.") eqn:Hrun;
    [vm_compute in Hrun; discriminate Hrun|done|].
  vm_compute in Hrun. injection Hrun as <-. vm_compute. reflexivity.
Defined.

(** From the job text to the saved resume: the technologies saved are
    the technologies loaded, all of them, behind at most one new section,
    and every detail of that section is a term of the vocabulary that
    occurs in the job text and validates at [familiar]. *)
Theorem main_body_adds_found_and_validated
    vs order resume_data job_text out items :
  get_path ["cv"; "sections"; "technologies"] (VDict resume_data)
  = Some (VList items) →
  well_formed_items items →
  main_body vs order resume_data job_text = Saved out →
  ∃ added kept,
    get_path ["cv"; "sections"; "technologies"] (VDict out)
    = Some (VList (added ++ kept))
    ∧ kept ≡ₚ items
    ∧ (added = []
       ∨ ∃ section details,
           added = [section]
           ∧ item_details section = Some details
           ∧ details ≠ []
           ∧ Forall
               (λ k, k ∈ order
                     ∧ (0 < term_count job_text k)%nat
                     ∧ validate_keyword vs k "familiar" = Some true)
               details).
Proof.
  intros Hpath Hwf. unfold main_body.
  repeat case_bool_decide; try done.
  destruct (optimize_resume vs resume_data
              (extract_keywords_over order job_text)) as [r|] eqn:Hopt;
    [|done].
  intros [= <-].
  destruct (optimize_resume_technologies _ _ _ _ _ Hpath Hwf Hopt)
    as (added & kept & Hget & Hperm & Hadded).
  exists added, kept. split; [done|]. split; [done|].
  destruct Hadded as [->|(new & -> & Hne & Hall)]; [by left|right].
  exists (job_relevant_section new), (take 6 new).
  split; [done|]. split; [apply item_details_job_section|].
  split; [by destruct new|].
  apply Forall_take. eapply Forall_impl; [exact Hall|].
  intros k [Hk Hv].
  destruct (extract_keywords_over_key _ _ _ Hk) as [Hin Hpos]. done.
Qed.

Lemma main_body_adds_found_and_validated_witness :
  get_path ["cv"; "sections"; "technologies"] (VDict full_resume)
  = Some (VList [item "Tools" ["Git"]; item "Languages" ["uses Python"]])
  ∧ well_formed_items [item "Tools" ["Git"]; item "Languages" ["uses Python"]]
  ∧ main_body python_skills tech_keywords full_resume
      "Python on Docker, and more Python."
    = Saved optimized_full_resume
  ∧ ∃ added kept,
      get_path ["cv"; "sections"; "technologies"] (VDict optimized_full_resume)
      = Some (VList (added ++ kept))
      ∧ kept ≡ₚ [item "Tools" ["Git"]; item "Languages" ["uses Python"]].
Proof.
  assert (H1 : get_path ["cv"; "sections"; "technologies"] (VDict full_resume)
    = Some (VList [item "Tools" ["Git"]; item "Languages" ["uses Python"]]))
    by (vm_compute; reflexivity).
  assert (H2 : well_formed_items
                 [item "Tools" ["Git"]; item "Languages" ["uses Python"]])
    by (repeat constructor; vm_compute; eexists; reflexivity).
  assert (H3 : main_body python_skills tech_keywords full_resume
                 "Python on Docker, and more Python."
               = Saved optimized_full_resume) by (vm_compute; reflexivity).
  split; [exact H1|]. split; [exact H2|]. split; [exact H3|].
  destruct (main_body_adds_found_and_validated _ _ _ _ _ _ H1 H2 H3)
    as (added & kept & Hget & Hperm & _).
  exists added, kept. split; [exact Hget|exact Hperm].
Defined.
